(** * Logogen service worker: cache registry, lifecycle, router, reconciler

    Shallow embedding of [src/service-worker.js].  The worker is a set of
    event handlers that talk to the browser through promises; a handler is
    modelled as a state transformer over a [World] (the CacheStorage
    registry plus the trace of calls the worker made into the host) that
    settles as fulfilled or rejected.  Everything the browser decides
    (network answers, I/O failures of the store, the connected clients,
    URL parsing) is read from a [Host] record. *)

From Stdlib Require Import String Ascii List Bool ZArith Lia.
From Stdlib Require SpecFloat.
From stdpp Require Import base strings gmap list.
Import ListNotations.

Local Open Scope string_scope.
Local Open Scope Z_scope.

(** ** Constants of the source (lines 1-21) *)

Definition CACHE_NAME : string := "logo-package-generator-v1.0.0".
Definition STATIC_CACHE : string := "static-v1".
Definition DYNAMIC_CACHE : string := "dynamic-v1".

Definition STATIC_ASSETS : list string :=
  [ "/";
    "/index.html";
    "/manifest.json";
    "https://i.postimg.cc/dtq83xGm/logo-512x512.png";
    "https://cdnjs.cloudflare.com/ajax/libs/font-awesome/6.4.0/css/all.min.css";
    "https://cdnjs.cloudflare.com/ajax/libs/jszip/3.10.1/jszip.min.js";
    "https://cdnjs.cloudflare.com/ajax/libs/FileSaver.js/2.0.5/FileSaver.min.js" ].

Definition EXTERNAL_RESOURCES : list string :=
  [ "https://fonts.googleapis.com/css2?family=Segoe+UI:wght@300;400;500;600;700&display=swap";
    "https://cdnjs.cloudflare.com/ajax/libs/font-awesome/6.4.0/webfonts/fa-solid-900.woff2";
    "https://cdnjs.cloudflare.com/ajax/libs/font-awesome/6.4.0/webfonts/fa-regular-400.woff2" ].

(** ** Data model *)

(** [Response.type] of the Fetch API. *)
Inductive ResponseType :=
  | basic | cors | default | error | opaque | opaqueredirect.

Definition ResponseType_eqb (a b : ResponseType) : bool :=
  match a, b with
  | basic, basic | cors, cors | default, default
  | error, error | opaque, opaque | opaqueredirect, opaqueredirect => true
  | _, _ => false
  end.

(** A response: the fields the worker inspects, and its body. *)
Record Response := {
  status : Z;
  type : ResponseType;
  headers : gmap string string;
  body : string
}.

(** [response.headers.get(name)]: [None] is JavaScript's [null]. *)
Definition headers_get (r : Response) (name : string) : option string :=
  headers r !! name.

(** [response.clone()]: a second handle on the same status, headers and body. *)
Definition clone (r : Response) : Response := r.

(** An intercepted request ([event.request]); [url] is the serialised
    absolute URL the browser gives it. *)
Record Request := {
  method : string;
  url : string
}.

(** Messages of the notification bridge. *)
Inductive CoreMessage :=
  | ASSETS_UPDATED (assets : list string).

Record VersionInfo := {
  version : string;
  cacheName : string
}.

Record ClientData := { msg_type : string }.

Record MessageEvent := {
  data : option ClientData;
  ports : list nat
}.

Inductive Level := LOG | WARN | ERROR.

(** Calls the worker makes into the host, in the order it makes them. *)
Inductive Event :=
  | Console (l : Level) (msg : string)
  | NetFetch (u : string)
  | CachePut (cache key : string) (r : Response)
  | CacheDelete (cache : string)
  | SkipWaiting
  | ClientsClaim
  | PostMessage (client : nat) (m : CoreMessage)
  | PortMessage (port : nat) (v : VersionInfo).

(** A cache maps request URLs to responses; the registry ([caches]) lists
    the named caches in creation order, which is the order [caches.keys()]
    reports and [caches.match] searches. *)
Record World := {
  registry : list (string * gmap string Response);
  trace : list Event
}.

(** What the browser supplies. *)
Record Host := {
  (** [self.location.origin] *)
  location_origin : string;
  (** [new URL(u).origin] *)
  url_origin : string -> string;
  (** outcome of a GET of an absolute URL; [None]: the fetch rejects *)
  network : string -> option Response;
  (** I/O failures of the store, per operation *)
  open_fails : string -> bool;
  put_fails : string -> string -> bool;
  delete_fails : string -> bool;
  (** [self.clients.matchAll()] *)
  clients : list nat
}.

(** ** Promises *)

Inductive Settled (A : Type) :=
  | Fulfilled (a : A)
  | Rejected (reason : string).
Arguments Fulfilled {A} a.
Arguments Rejected {A} reason.

Definition Promise (A : Type) : Type := World -> Settled A * World.

Definition resolve {A} (a : A) : Promise A := fun w => (Fulfilled a, w).
Definition reject {A} (reason : string) : Promise A := fun w => (Rejected reason, w).

(** [p.then(f)], and [await] inside an async function. *)
Definition then_ {A B} (p : Promise A) (f : A -> Promise B) : Promise B :=
  fun w =>
    match p w with
    | (Fulfilled a, w') => f a w'
    | (Rejected reason, w') => (Rejected reason, w')
    end.

(** [p.catch(f)], and [try { p } catch (error) { f }]. *)
Definition catch_ {A} (p : Promise A) (f : string -> Promise A) : Promise A :=
  fun w =>
    match p w with
    | (Fulfilled a, w') => (Fulfilled a, w')
    | (Rejected reason, w') => f reason w'
    end.

Declare Scope promise_scope.
Delimit Scope promise_scope with promise.
Notation "x <- p ;; q" := (then_ p (fun x => q))
  (at level 100, p at next level, right associativity) : promise_scope.
Notation "p ;; q" := (then_ p (fun _ => q))
  (at level 100, right associativity) : promise_scope.
Local Open Scope promise_scope.

Definition emit (e : Event) : Promise unit :=
  fun w => (Fulfilled tt, {| registry := registry w; trace := (trace w ++ [e])%list |}).

Definition console (l : Level) (msg : string) : Promise unit := emit (Console l msg).

(** [Promise.all]: the promises of the array have all been started; the
    result is fulfilled with every value, or rejected with the reason of the
    first one that rejects. *)
Fixpoint promise_all {A} (ps : list (Promise A)) : Promise (list A) :=
  fun w =>
    match ps with
    | [] => (Fulfilled [], w)
    | p :: ps' =>
        match p w with
        | (Fulfilled a, w1) =>
            match promise_all ps' w1 with
            | (Fulfilled l, w2) => (Fulfilled (a :: l), w2)
            | (Rejected reason, w2) => (Rejected reason, w2)
            end
        | (Rejected reason, w1) => (Rejected reason, snd (promise_all ps' w1))
        end
    end.

(** [for (const x of l) body], threading the variables the body updates. *)
Fixpoint for_of {A S} (l : list A) (body : A -> S -> Promise S) (s : S) : Promise S :=
  match l with
  | [] => resolve s
  | x :: l' => s' <- body x s ;; for_of l' body s'
  end.

(** [l.forEach(f)] *)
Fixpoint forEach {A} (l : list A) (f : A -> Promise unit) : Promise unit :=
  match l with
  | [] => resolve tt
  | x :: l' => f x ;; forEach l' f
  end.

(** An operation whose promise the caller drops (neither returned nor
    awaited): it runs, and its settlement reaches nobody. *)
Definition detached {A} (p : Promise A) : Promise unit :=
  fun w => (Fulfilled tt, snd (p w)).

(** ** Strings and URLs *)

(** [s.startsWith(p)] *)
Definition startsWith (s p : string) : bool := String.prefix p s.

(** [s.includes(needle)] *)
Definition includes (s needle : string) : bool :=
  match String.index 0 needle s with
  | Some _ => true
  | None => false
  end.

(** [l.includes(x)] on an array of strings. *)
Definition array_includes (l : list string) (x : string) : bool :=
  existsb (String.eqb x) l.

(** The URL of the request the host builds from a string handed to
    [fetch], [cache.match], [cache.put] or [cache.addAll]: a path-absolute
    string is resolved against the worker's origin, an absolute URL is kept.
    These are the two forms the manifest contains. *)
Definition request_url (h : Host) (s : string) : string :=
  if startsWith s "/" then location_origin h +:+ s else s.

(** ** Store registry (the Cache API as the worker uses it) *)

Fixpoint registry_lookup (name : string) (reg : list (string * gmap string Response))
  : option (gmap string Response) :=
  match reg with
  | [] => None
  | (n, c) :: reg' => if String.eqb n name then Some c else registry_lookup name reg'
  end.

Fixpoint registry_update (name : string) (f : gmap string Response -> gmap string Response)
  (reg : list (string * gmap string Response)) : list (string * gmap string Response) :=
  match reg with
  | [] => []
  | (n, c) :: reg' =>
      if String.eqb n name then (n, f c) :: reg'
      else (n, c) :: registry_update name f reg'
  end.

Definition registry_remove (name : string) (reg : list (string * gmap string Response))
  : list (string * gmap string Response) :=
  List.filter (fun nc => negb (String.eqb (fst nc) name)) reg.

Definition set_registry (reg : list (string * gmap string Response)) (w : World) : World :=
  {| registry := reg; trace := trace w |}.

(** [caches.open(name)]: creates the cache when absent; the handle is the name. *)
Definition caches_open (h : Host) (name : string) : Promise string :=
  fun w =>
    if open_fails h name then (Rejected "caches.open failed", w)
    else match registry_lookup name (registry w) with
         | Some _ => (Fulfilled name, w)
         | None => (Fulfilled name, set_registry (registry w ++ [(name, ∅)])%list w)
         end.

(** [caches.keys()] *)
Definition caches_keys : Promise (list string) :=
  fun w => (Fulfilled (map fst (registry w)), w).

(** [caches.delete(name)]: removes the cache and fulfils with whether it
    existed. *)
Definition caches_delete (h : Host) (name : string) : Promise bool :=
  emit (CacheDelete name) ;;
  fun w =>
    if delete_fails h name then (Rejected "caches.delete failed", w)
    else (Fulfilled (bool_decide (is_Some (registry_lookup name (registry w)))),
          set_registry (registry_remove name (registry w)) w).

Fixpoint first_match (u : string) (reg : list (string * gmap string Response))
  : option Response :=
  match reg with
  | [] => None
  | (_, c) :: reg' =>
      match c !! u with
      | Some r => Some r
      | None => first_match u reg'
      end
  end.

(** [caches.match(request)]: searches every cache, first match wins;
    [None] is [undefined]. *)
Definition caches_match (req : Request) : Promise (option Response) :=
  fun w => (Fulfilled (first_match (url req) (registry w)), w).

(** The entry of [key] in the cache named [cache], if any. *)
Definition entry (w : World) (cache key : string) : option Response :=
  match registry_lookup cache (registry w) with
  | Some c => c !! key
  | None => None
  end.

(** [cache.match(u)] on one cache. *)
Definition cache_match (cache : string) (u : string) : Promise (option Response) :=
  fun w => (Fulfilled (entry w cache u), w).

(** [cache.put(u, r)]: overwrites the entry of [u]. *)
Definition cache_put (h : Host) (cache : string) (u : string) (r : Response) : Promise unit :=
  emit (CachePut cache u r) ;;
  fun w =>
    if put_fails h cache u then (Rejected "cache.put failed", w)
    else (Fulfilled tt, set_registry (registry_update cache (fun c => <[u := r]> c) (registry w)) w).

(** [fetch(u)] *)
Definition fetch (h : Host) (u : string) : Promise Response :=
  emit (NetFetch u) ;;
  match network h u with
  | Some r => resolve r
  | None => reject "TypeError: Failed to fetch"
  end.

(** [response.ok] *)
Definition ok (r : Response) : bool := (200 <=? status r) && (status r <=? 299).

Fixpoint fetch_all (h : Host) (us : list string) : option (list (string * Response)) :=
  match us with
  | [] => Some []
  | u :: us' =>
      match network h u, fetch_all h us' with
      | Some r, Some l => Some ((u, r) :: l)
      | _, _ => None
      end
  end.

(** [cache.addAll(list)]: every URL is fetched; the promise rejects, and
    nothing is stored, unless every fetch succeeds with an ok response and
    every entry can be written; otherwise all entries are stored. *)
Definition cache_addAll (h : Host) (cache : string) (l : list string) : Promise unit :=
  let us := map (request_url h) l in
  forEach us (fun u => emit (NetFetch u)) ;;
  match fetch_all h us with
  | None => reject "TypeError: Failed to fetch"
  | Some entries =>
      if negb (forallb (fun e => ok (snd e)) entries) then
        reject "TypeError: bad response status"
      else if existsb (fun e => put_fails h cache (fst e)) entries then
        reject "cache.put failed"
      else
        fun w =>
          (Fulfilled tt,
           set_registry
             (registry_update cache
                (fun c => fold_left (fun c e => <[fst e := snd e]> c) entries c)
                (registry w)) w)
  end.

Definition skipWaiting : Promise unit := emit SkipWaiting.
Definition clients_claim : Promise unit := emit ClientsClaim.
Definition clients_matchAll (h : Host) : Promise (list nat) := resolve (clients h).
Definition client_postMessage (client : nat) (m : CoreMessage) : Promise unit :=
  emit (PostMessage client m).
Definition port_postMessage (port : nat) (v : VersionInfo) : Promise unit :=
  emit (PortMessage port v).

(** ** Lifecycle controller *)

(** The [install] listener (lines 24-41): the promise handed to
    [event.waitUntil]. *)
Definition on_install (h : Host) : Promise unit :=
  console LOG "Service Worker: Installing..." ;;
  catch_
    (then_
       (then_ (caches_open h STATIC_CACHE)
          (fun cache =>
             console LOG "Service Worker: Caching static assets" ;;
             cache_addAll h cache (STATIC_ASSETS ++ EXTERNAL_RESOURCES)))
       (fun _ =>
          console LOG "Service Worker: Install completed" ;;
          skipWaiting))
    (fun error => console ERROR "Service Worker: Installation failed").

(** Line 52: a cache that is neither of the two current ones. *)
Definition superseded (cache : string) : bool :=
  negb (String.eqb cache STATIC_CACHE) && negb (String.eqb cache DYNAMIC_CACHE).

(** The [activate] listener (lines 44-64): the promise handed to
    [event.waitUntil].  [delete_if_superseded] is the callback of [map]; it
    yields [undefined] ([None]) for a cache that is kept. *)
Definition delete_if_superseded (h : Host) (cache : string) : Promise (option bool) :=
  if superseded cache
  then
    console LOG "Service Worker: Deleting old cache" ;;
    deleted <- caches_delete h cache ;;
    resolve (Some deleted)
  else resolve None.

Definition on_activate (h : Host) : Promise unit :=
  console LOG "Service Worker: Activating..." ;;
  then_
    (then_ caches_keys
       (fun cacheNames => promise_all (map (delete_if_superseded h) cacheNames)))
    (fun _ =>
       console LOG "Service Worker: Activate completed" ;;
       clients_claim).

(** States of the lifecycle (spec section 4.2). *)
Inductive Lifecycle := INSTALLING | ACTIVATING | ACTIVE | FAILED.

(** The host's rule for the install event: the version is discarded when
    the promise given to [waitUntil] rejects, and goes on to activation
    when it is fulfilled. *)
Definition after_install (r : Settled unit) : Lifecycle :=
  match r with
  | Fulfilled _ => ACTIVATING
  | Rejected _ => FAILED
  end.

(** ** Interception router (lines 67-129) *)

(** What the listener does with the event: returns without answering, or
    calls [event.respondWith] with a promise that settles as given. *)
Inductive Routed :=
  | PassThrough
  | RespondWith (r : Settled Response).

Definition respondWith (p : Promise Response) : World -> Routed * World :=
  fun w => let (r, w') := p w in (RespondWith r, w').

(** Lines 104-108. *)
Definition isCacheable (h : Host) (req : Request) : bool :=
  String.eqb (url_origin h (url req)) (location_origin h)
  || array_includes EXTERNAL_RESOURCES (url req)
  || array_includes STATIC_ASSETS (url req).

(** Lines 92-118: what is done with a response that came from the network.
    A fulfilled [fetch] always carries a response, so the test
    [!networkResponse] of line 93 has no case here. *)
Definition on_network_response (h : Host) (req : Request) (networkResponse : Response)
  : Promise Response :=
  if negb (status networkResponse =? 200) || negb (ResponseType_eqb (type networkResponse) basic)
  then resolve networkResponse
  else
    let responseToCache := clone networkResponse in
    detached
      (catch_
         (cache <- caches_open h DYNAMIC_CACHE ;;
          if isCacheable h req
          then detached (cache_put h cache (url req) responseToCache)
          else resolve tt)
         (fun error => console WARN "Service Worker: Cache put error")) ;;
    resolve networkResponse.

(** Lines 69-71: requests the listener leaves alone. *)
Definition skipped (req : Request) : bool :=
  negb (String.eqb (method req) "GET")
  || startsWith (url req) "chrome-extension://"
  || includes (url req) "extension".

(** Line 76: requests answered from the network only. *)
Definition is_api_request (req : Request) : bool :=
  includes (url req) "api.openai.com".

Definition on_fetch (h : Host) (req : Request) : World -> Routed * World :=
  if skipped req
  then fun w => (PassThrough, w)
  else if is_api_request req
  then respondWith (fetch h (url req))
  else
    respondWith
      (cachedResponse <- caches_match req ;;
       match cachedResponse with
       | Some cached => resolve cached
       | None =>
           catch_
             (networkResponse <- fetch h (url req) ;;
              on_network_response h req networkResponse)
             (fun error =>
                console WARN "Service Worker: Fetch failed" ;;
                reject error)
       end).

(** ** Update reconciler (lines 217-252) *)

(** Lines 227-228: there is no cached copy, or the two [etag] headers
    differ ([!==] on two strings, or on a string and [null]). *)
Definition needs_update (networkResponse : Response) (cachedResponse : option Response)
  : bool :=
  match cachedResponse with
  | None => true
  | Some cached =>
      negb (bool_decide (headers_get networkResponse "etag" = headers_get cached "etag"))
  end.

(** The body of the loop, for one asset; [updatedAssets] is the array the
    loop pushes to. *)
Definition update_asset (h : Host) (cache : string) (asset : string)
  (updatedAssets : list string) : Promise (list string) :=
  catch_
    (networkResponse <- fetch h (request_url h asset) ;;
     cachedResponse <- cache_match cache (request_url h asset) ;;
     if needs_update networkResponse cachedResponse
     then
       cache_put h cache (request_url h asset) (clone networkResponse) ;;
       resolve (updatedAssets ++ [asset])%list
     else resolve updatedAssets)
    (fun error =>
       console WARN ("Service Worker: Failed to update " +:+ asset) ;;
       resolve updatedAssets).

Definition checkForUpdates (h : Host) : Promise unit :=
  catch_
    (cache <- caches_open h STATIC_CACHE ;;
     updatedAssets <- for_of STATIC_ASSETS (update_asset h cache) [] ;;
     if (0 <? length updatedAssets)%nat
     then
       console LOG "Service Worker: Updated assets" ;;
       clients <- clients_matchAll h ;;
       forEach clients
         (fun client => client_postMessage client (ASSETS_UPDATED updatedAssets))
     else resolve tt)
    (fun error => console ERROR "Service Worker: Update check failed").

(** ** Notification bridge (lines 255-268) *)

Definition data_type_is (ev : MessageEvent) (t : string) : bool :=
  match data ev with
  | Some d => String.eqb (msg_type d) t
  | None => false
  end.

(** The [message] listener; [event.ports[0]] of an empty array is
    [undefined], and calling a method on it throws. *)
Definition on_message (ev : MessageEvent) : Promise unit :=
  console LOG "Service Worker: Message received" ;;
  (if data_type_is ev "SKIP_WAITING" then skipWaiting else resolve tt) ;;
  if data_type_is ev "GET_VERSION"
  then
    match ports ev with
    | port :: _ =>
        port_postMessage port {| version := "1.0.0"; cacheName := CACHE_NAME |}
    | [] => reject "TypeError: Cannot read properties of undefined"
    end
  else resolve tt.

(** ** Observations used in the statements *)

Definition is_post (e : Event) : bool :=
  match e with PostMessage _ _ => true | _ => false end.

Definition is_delete (e : Event) : bool :=
  match e with CacheDelete _ => true | _ => false end.

(** A world with the given registry in which the worker has done nothing yet. *)
Definition fresh (reg : list (string * gmap string Response)) : World :=
  {| registry := reg; trace := [] |}.

(** The Fetch standard gives a response the type [basic] only when the
    request went to the worker's own origin. *)
Definition basic_is_same_origin (h : Host) : Prop :=
  forall u r, network h u = Some r -> type r = basic ->
    url_origin h u = location_origin h.

(** The cache keys of the first-party assets. *)
Definition static_keys (h : Host) : list string := map (request_url h) STATIC_ASSETS.

(** The value of [updatedAssets] when the loop of [checkForUpdates] ends
    (empty when the static cache cannot be opened). *)
Definition updatedAssets_of (h : Host) (w : World) : list string :=
  match (cache <- caches_open h STATIC_CACHE ;;
         for_of STATIC_ASSETS (update_asset h cache) []) w with
  | (Fulfilled l, _) => l
  | (Rejected _, _) => []
  end.

(** ** Example hosts and worlds *)

Definition plain_response (s : Z) (t : ResponseType) (tag : option string) (b : string)
  : Response :=
  {| status := s;
     type := t;
     headers := match tag with Some e => {[ "etag" := e ]} | None => ∅ end;
     body := b |}.

Definition app_origin : string := "https://logogen.example".

Definition origin_by_prefix (u : string) : string :=
  if startsWith u "https://logogen.example/" then app_origin else "https://third.party".

(** A host on which everything succeeds and no response carries an etag. *)
Definition quiet_host : Host :=
  {| location_origin := app_origin;
     url_origin := origin_by_prefix;
     network := fun u =>
       if String.eqb (origin_by_prefix u) app_origin
       then Some (plain_response 200 basic None "fresh")
       else Some (plain_response 200 cors None "fresh");
     open_fails := fun _ => false;
     put_fails := fun _ _ => false;
     delete_fails := fun _ => false;
     clients := [1%nat; 2%nat] |}.

(** As [quiet_host], but the fetch of [/index.html] fails. *)
Definition offline_index_host : Host :=
  {| location_origin := app_origin;
     url_origin := origin_by_prefix;
     network := fun u =>
       if String.eqb u "https://logogen.example/index.html" then None
       else network quiet_host u;
     open_fails := fun _ => false;
     put_fails := fun _ _ => false;
     delete_fails := fun _ => false;
     clients := [1%nat; 2%nat] |}.

(** As [quiet_host], but the cache [old-static] cannot be deleted. *)
Definition stuck_delete_host : Host :=
  {| location_origin := app_origin;
     url_origin := origin_by_prefix;
     network := network quiet_host;
     open_fails := fun _ => false;
     put_fails := fun _ _ => false;
     delete_fails := fun n => String.eqb n "old-static";
     clients := [1%nat; 2%nat] |}.

(** The static cache holds an etag-less copy of the start page. *)
Definition installed_world : World :=
  fresh [ (STATIC_CACHE,
           {[ "https://logogen.example/" := plain_response 200 basic None "stale" ]}) ].

Definition old_version_world : World :=
  fresh [ ("old-static", ∅); (STATIC_CACHE, ∅); ("old-dynamic", ∅) ].

Definition get_request (u : string) : Request := {| method := "GET"; url := u |}.

(** ** The activation phase in closed form *)

(** The caches whose deletion the host refuses. *)
Definition delete_refused (h : Host) (cache : string) : bool :=
  superseded cache && delete_fails h cache.

(** No deletion asked for by the activation of a registry with these names
    is refused. *)
Definition deletes_succeed (h : Host) (names : list string) : bool :=
  forallb (fun n => negb (delete_refused h n)) names.

(** What the callback of [map] emits for one cache name. *)
Definition sweep_events (names : list string) : list Event :=
  flat_map (fun n =>
              if superseded n
              then [Console LOG "Service Worker: Deleting old cache"; CacheDelete n]
              else [])
           names.


(** Whether a registry entry survives the deletions asked for [names]. *)
Definition survives (h : Host) (names : list string) (nc : string * gmap string Response)
  : bool :=
  negb (existsb (fun n => String.eqb (fst nc) n && (superseded n && negb (delete_fails h n)))
          names).

Definition is_fulfilled {A} (r : Settled A) : bool :=
  match r with Fulfilled _ => true | Rejected _ => false end.

(** ** One reconciliation pass in closed form *)

(** The copy that replaces the cached one, if the asset is refreshed: the
    fetch succeeds, the copy needs an update and the store accepts it. *)
Definition refreshed (h : Host) (cached : option Response) (asset : string)
  : option Response :=
  match network h (request_url h asset) with
  | Some n =>
      if needs_update n cached && negb (put_fails h STATIC_CACHE (request_url h asset))
      then Some n else None
  | None => None
  end.

Definition is_refreshed (h : Host) (cached : option Response) (asset : string) : bool :=
  match refreshed h cached asset with Some _ => true | None => false end.

(** What the loop body emits for one asset. *)
Definition asset_events (h : Host) (cached : option Response) (asset : string)
  : list Event :=
  NetFetch (request_url h asset) ::
  match network h (request_url h asset) with
  | None => [Console WARN ("Service Worker: Failed to update " +:+ asset)]
  | Some n =>
      if needs_update n cached
      then CachePut STATIC_CACHE (request_url h asset) (clone n) ::
           (if put_fails h STATIC_CACHE (request_url h asset)
            then [Console WARN ("Service Worker: Failed to update " +:+ asset)] else [])
      else []
  end.

(** The static cache after the loop body ran for one asset. *)
Definition next_cache (h : Host) (c : gmap string Response) (asset : string)
  : gmap string Response :=
  match refreshed h (c !! request_url h asset) asset with
  | Some n => <[request_url h asset := n]> c
  | None => c
  end.

Fixpoint pass_updated (h : Host) (l : list string) (c : gmap string Response)
  : list string :=
  match l with
  | [] => []
  | a :: l' =>
      ((if is_refreshed h (c !! request_url h a) a then [a] else [])
         ++ pass_updated h l' (next_cache h c a))%list
  end.

Fixpoint pass_events (h : Host) (l : list string) (c : gmap string Response)
  : list Event :=
  match l with
  | [] => []
  | a :: l' =>
      (asset_events h (c !! request_url h a) a ++ pass_events h l' (next_cache h c a))%list
  end.

(** The last character of a string; it tells the manifest's URLs apart
    whatever origin the path-absolute ones are resolved against. *)
Fixpoint last_char (s : string) : option ascii :=
  match s with
  | EmptyString => None
  | String a EmptyString => Some a
  | String _ s' => last_char s'
  end.

(** The claim that a missing token on either side forces a refresh. *)
Definition absent_token_forces_refresh : Prop :=
  forall h w asset n cached,
    open_fails h STATIC_CACHE = false ->
    put_fails h STATIC_CACHE (request_url h asset) = false ->
    In asset STATIC_ASSETS ->
    network h (request_url h asset) = Some n ->
    entry w STATIC_CACHE (request_url h asset) = Some cached ->
    headers_get n "etag" = None \/ headers_get cached "etag" = None ->
    In asset (updatedAssets_of h w) /\
    entry (snd (checkForUpdates h w)) STATIC_CACHE (request_url h asset) = Some n.

(** The copy that replaces the cached one of [asset] in a pass started in
    [w], if any. *)
Definition pass_refreshed (h : Host) (w : World) (asset : string) : option Response :=
  if open_fails h STATIC_CACHE then None
  else refreshed h (entry w STATIC_CACHE (request_url h asset)) asset.

(** Lines 237-248: what is emitted after the loop. *)
Definition broadcast_events (h : Host) (updated : list string) : list Event :=
  match updated with
  | [] => []
  | _ :: _ =>
      Console LOG "Service Worker: Updated assets"
      :: map (fun c => PostMessage c (ASSETS_UPDATED updated)) (clients h)
  end.

(** Everything a pass started in [w] emits. *)
Definition pass_trace (h : Host) (w : World) : list Event :=
  if open_fails h STATIC_CACHE
  then [Console ERROR "Service Worker: Update check failed"]
  else (flat_map (fun a => asset_events h (entry w STATIC_CACHE (request_url h a)) a)
          STATIC_ASSETS
        ++ broadcast_events h (updatedAssets_of h w))%list.

(** A host whose responses carry an etag: [v2] for /index.html, [v1] for
    every other URL; one client is connected. *)
Definition tagged_host : Host :=
  {| location_origin := app_origin;
     url_origin := origin_by_prefix;
     network := fun u =>
       Some (plain_response 200 basic
               (Some (if String.eqb u "https://logogen.example/index.html"
                      then "v2" else "v1"))
               "fresh");
     open_fails := fun _ => false;
     put_fails := fun _ _ => false;
     delete_fails := fun _ => false;
     clients := [7%nat] |}.

(** Every first-party asset is cached with the etag [v1]. *)
Definition tagged_world : World :=
  fresh [ (STATIC_CACHE,
           list_to_map
             (map (fun k => (k, plain_response 200 basic (Some "v1") "stale"))
                (static_keys tagged_host))) ].


(** ** Background sync (lines 132-146 and 200-214) *)

(** [doBackgroundSync] (lines 200-214). *)
Definition doBackgroundSync (h : Host) : Promise unit :=
  catch_
    (console LOG "Service Worker: Performing background sync" ;;
     cache <- caches_open h STATIC_CACHE ;;
     response <- fetch h (request_url h "/") ;;
     cache_put h cache (request_url h "/") response ;;
     console LOG "Service Worker: Background sync completed")
    (fun error => console ERROR "Service Worker: Background sync failed").

(** The [sync] listener (lines 132-138): what the handler does, ending
    with the promise it hands to [event.waitUntil] when the tag matches. *)
Definition on_sync (h : Host) (tag : string) : Promise unit :=
  console LOG "Service Worker: Background sync" ;;
  if String.eqb tag "background-sync" then doBackgroundSync h else resolve tt.

(** The [periodicsync] listener (lines 141-146). *)
Definition on_periodicsync (h : Host) (tag : string) : Promise unit :=
  if String.eqb tag "update-check"
  then
    console LOG "Service Worker: Periodic sync for updates" ;;
    checkForUpdates h
  else resolve tt.

(** ** Push notifications (lines 149-197) *)

(** A JSON value as [JSON.parse] builds it; a number is a binary64 value. *)
#[warnings="-register-all"]
Inductive Json :=
  | JNull
  | JBool (b : bool)
  | JNumber (x : SpecFloat.spec_float)
  | JString (s : string)
  | JArray (items : list Json)
  | JObject (fields : list (string * Json)).

(** JavaScript's truthiness: [null], [false], zero, NaN and the empty
    string are falsy; arrays and objects are always truthy. *)
Definition truthy (v : Json) : bool :=
  match v with
  | JNull => false
  | JBool b => b
  | JNumber (SpecFloat.S754_zero _) => false
  | JNumber SpecFloat.S754_nan => false
  | JNumber _ => true
  | JString EmptyString => false
  | JString _ => true
  | JArray _ => true
  | JObject _ => true
  end.

(** The value bound to [name] in the fields of a parsed object; of two
    bindings of one key the later one wins. *)
Fixpoint last_binding (name : string) (fields : list (string * Json)) : option Json :=
  match fields with
  | [] => None
  | (k, v) :: rest =>
      match last_binding name rest with
      | Some v' => Some v'
      | None => if String.eqb k name then Some v else None
      end
  end.

(** [data.name] for one of the names the handler reads (title, body, url)
    on a value that is not [null]: [None] is [undefined], which is what a
    boolean, a number, a string or an array gives for these names. *)
Definition get_field (data : Json) (name : string) : option Json :=
  match data with
  | JObject fields => last_binding name fields
  | _ => None
  end.

(** [event.data.json()]: the payload is not JSON (the call throws) or
    parses to a value. *)
Inductive PushPayload :=
  | InvalidJson
  | Parsed (v : Json).

(** The options object of line 153; [body] and [data.url] are handed on as
    the values they are. *)
Record NotificationOptions := {
  opt_body : Json;
  opt_icon : string;
  opt_badge : string;
  opt_vibrate : list Z;
  opt_data_url : Json;
  opt_actions : list (string * string)
}.

Inductive PushResult :=
  | NothingShown
  | PushThrows (reason : string)
  | ShowNotification (title : Json) (options : NotificationOptions).

(** [v || d] for a field [v] and a string literal [d]. *)
Definition or_default (v : option Json) (d : string) : Json :=
  match v with
  | Some x => if truthy x then x else JString d
  | None => JString d
  end.

(** The [push] listener (lines 149-176); [None] is an event without data.
    Reading a field of [null] throws. *)
Definition on_push (event_data : option PushPayload) : PushResult :=
  match event_data with
  | None => NothingShown
  | Some InvalidJson => PushThrows "SyntaxError"
  | Some (Parsed JNull) => PushThrows "TypeError: Cannot read properties of null"
  | Some (Parsed data) =>
      let options :=
        {| opt_body := or_default (get_field data "body") "Logo Package Generator";
           opt_icon := "https://i.postimg.cc/dtq83xGm/logo-512x512.png";
           opt_badge := "https://i.postimg.cc/dtq83xGm/logo-512x512.png";
           opt_vibrate := [100; 50; 100];
           opt_data_url := or_default (get_field data "url") "/";
           opt_actions := [("open", "Open App"); ("close", "Close")] |} in
      ShowNotification (or_default (get_field data "title") "Logo Package Generator") options
  end.

(** A window client as the click handler sees it: its URL, and whether it
    has a [focus] method. *)
Record WindowClient := {
  client_url : string;
  has_focus : bool
}.

Inductive WindowEffect :=
  | NotificationClose
  | ClientFocus (c : WindowClient)
  | OpenWindow (u : string).

(** Lines 186-190: the loop that returns at the first client to focus. *)
Fixpoint first_to_focus (clientList : list WindowClient) : option WindowClient :=
  match clientList with
  | [] => None
  | client :: rest =>
      if String.eqb (client_url client) "/" && has_focus client
      then Some client
      else first_to_focus rest
  end.

(** The [notificationclick] listener (lines 179-197): the calls it makes,
    in order.  [clientList] is what [clients.matchAll({type: 'window'})]
    yields and [can_open] says whether [clients.openWindow] exists. *)
Definition on_notificationclick (clientList : list WindowClient) (can_open : bool)
  (action : string) : list WindowEffect :=
  NotificationClose ::
  (if String.eqb action "open"
   then
     match first_to_focus clientList with
     | Some client => [ClientFocus client]
     | None => if can_open then [OpenWindow "/"] else []
     end
   else []).

(** ** The install phase in closed form *)

(** Everything the install phase pre-caches (line 31). *)
Definition precached : list string := (STATIC_ASSETS ++ EXTERNAL_RESOURCES)%list.

(** One asset can be installed: its fetch succeeds with an ok response and
    the static cache accepts it. *)
Definition installable (h : Host) (asset : string) : bool :=
  match network h (request_url h asset) with
  | Some r => ok r && negb (put_fails h STATIC_CACHE (request_url h asset))
  | None => false
  end.

Definition install_succeeds (h : Host) : bool :=
  negb (open_fails h STATIC_CACHE) && forallb (installable h) precached.

Definition is_fetch (e : Event) : bool :=
  match e with NetFetch _ => true | _ => false end.

Definition is_put (e : Event) : bool :=
  match e with CachePut _ _ _ => true | _ => false end.

Definition is_warning (e : Event) : bool :=
  match e with Console WARN _ => true | _ => false end.

(** The fetch of an asset fails, or the static cache refuses its copy
    although it needed an update. *)
Definition update_fails (h : Host) (w : World) (asset : string) : bool :=
  match network h (request_url h asset) with
  | None => true
  | Some n =>
      needs_update n (entry w STATIC_CACHE (request_url h asset))
      && put_fails h STATIC_CACHE (request_url h asset)
  end.

(** Example inputs for the push and click handlers. *)
Definition focusable_root : WindowClient := {| client_url := "/"; has_focus := true |}.
Definition open_app_tab : WindowClient :=
  {| client_url := "https://logogen.example/"; has_focus := true |}.

(** Every step of a background sync goes through: the static cache opens,
    the start page is fetched and the cache accepts it. *)
Definition sync_succeeds (h : Host) : bool :=
  negb (open_fails h STATIC_CACHE)
  && match network h (request_url h "/") with
     | Some _ => negb (put_fails h STATIC_CACHE (request_url h "/"))
     | None => false
     end.

(** A host that answers every request with a 404 page. *)
Definition not_found_host : Host :=
  {| location_origin := app_origin;
     url_origin := origin_by_prefix;
     network := fun _ => Some (plain_response 404 basic None "not found");
     open_fails := fun _ => false;
     put_fails := fun _ _ => false;
     delete_fails := fun _ => false;
     clients := [] |}.


(** * Properties *)

(** ** The registry *)

Lemma registry_lookup_update name name' f reg :
  registry_lookup name' (registry_update name f reg) =
  if String.eqb name' name then f <$> registry_lookup name reg
  else registry_lookup name' reg.
Proof.
  induction reg as [|[n c] reg IH]; simpl.
  - destruct (String.eqb name' name); reflexivity.
  - destruct (String.eqb_spec n name) as [->|Hn]; simpl.
    + destruct (String.eqb_spec name name') as [->|Hn'].
      * rewrite String.eqb_refl. reflexivity.
      * destruct (String.eqb_spec name' name); congruence.
    + destruct (String.eqb_spec n name') as [->|Hn'].
      * destruct (String.eqb_spec name' name); congruence.
      * exact IH.
Qed.

Lemma registry_lookup_snoc name name' c reg :
  registry_lookup name reg = None ->
  registry_lookup name' (reg ++ [(name, c)]) =
  if String.eqb name' name then Some c else registry_lookup name' reg.
Proof.
  intros Hnone. induction reg as [|[n c0] reg IH]; simpl in *.
  - rewrite String.eqb_sym. reflexivity.
  - destruct (String.eqb_spec n name) as [->|Hn]; [discriminate|].
    destruct (String.eqb_spec n name') as [->|Hn'].
    + destruct (String.eqb_spec name' name); congruence.
    + apply IH, Hnone.
Qed.

Lemma first_match_None u reg name c :
  first_match u reg = None -> registry_lookup name reg = Some c -> c !! u = None.
Proof.
  induction reg as [|[n c0] reg IH]; simpl; [discriminate|].
  destruct (c0 !! u) eqn:Hc0; [discriminate|].
  intros Hm. destruct (String.eqb n name); [congruence | auto].
Qed.

Lemma entry_miss w req cache :
  first_match (url req) (registry w) = None -> entry w cache (url req) = None.
Proof.
  intros Hm. unfold entry.
  destruct (registry_lookup cache (registry w)) eqn:Hc; [|reflexivity].
  eapply first_match_None; eassumption.
Qed.

(** Opening a cache changes no entry. *)
Lemma caches_open_spec h name w :
  open_fails h name = false ->
  exists w', caches_open h name w = (Fulfilled name, w') /\
    trace w' = trace w /\
    is_Some (registry_lookup name (registry w')) /\
    forall cache key, entry w' cache key = entry w cache key.
Proof.
  intros Hopen. unfold caches_open. rewrite Hopen.
  destruct (registry_lookup name (registry w)) eqn:Hl.
  - exists w. rewrite Hl. repeat split; eauto.
  - eexists. split; [reflexivity|]. simpl. repeat split.
    + rewrite registry_lookup_snoc, String.eqb_refl by assumption. eauto.
    + intros cache key. unfold entry. simpl.
      rewrite registry_lookup_snoc by assumption.
      destruct (String.eqb_spec cache name) as [->|]; [|reflexivity].
      rewrite Hl. apply lookup_empty.
Qed.

(** A successful [put] sets one entry and leaves the others. *)
Lemma entry_after_put w cache u r cache' key :
  is_Some (registry_lookup cache (registry w)) ->
  entry (set_registry (registry_update cache (fun c => <[u := r]> c) (registry w)) w)
        cache' key =
  if bool_decide (cache' = cache /\ key = u) then Some r else entry w cache' key.
Proof.
  intros [c Hc]. unfold entry. simpl. rewrite registry_lookup_update.
  destruct (String.eqb_spec cache' cache) as [->|Hne].
  - rewrite Hc. simpl. destruct (decide (key = u)) as [->|Hk].
    + rewrite bool_decide_eq_true_2 by auto. apply lookup_insert_eq.
    + rewrite bool_decide_eq_false_2 by tauto. apply lookup_insert_ne. congruence.
  - rewrite bool_decide_eq_false_2 by tauto. reflexivity.
Qed.

Lemma entry_registry w1 w2 cache key :
  registry w1 = registry w2 -> entry w1 cache key = entry w2 cache key.
Proof. unfold entry. intros ->. reflexivity. Qed.

(** ** The router *)

(** The effect of the write path (lines 98-116) on the store. *)
Lemma on_network_response_valid h req nr w :
  status nr = 200 -> type nr = basic ->
  exists w', on_network_response h req nr w = (Fulfilled nr, w') /\
    (forall cache key,
        entry w' cache key = entry w cache key \/
        (cache = DYNAMIC_CACHE /\ key = url req /\ isCacheable h req = true /\
         entry w' cache key = Some nr)) /\
    (isCacheable h req = false ->
     forall cache key, entry w' cache key = entry w cache key) /\
    (isCacheable h req = true ->
     open_fails h DYNAMIC_CACHE = false ->
     put_fails h DYNAMIC_CACHE (url req) = false ->
     entry w' DYNAMIC_CACHE (url req) = Some nr).
Proof.
  intros Hs Ht. unfold on_network_response. rewrite Hs, Ht. simpl.
  unfold then_, detached, resolve, catch_.
  destruct (open_fails h DYNAMIC_CACHE) eqn:Hopen.
  - unfold caches_open. rewrite Hopen. simpl.
    eexists. split; [reflexivity|]. repeat split; auto; discriminate.
  - destruct (caches_open_spec h DYNAMIC_CACHE w Hopen) as (w1 & Heq & Htr & Hsome & Hent).
    rewrite Heq. destruct (isCacheable h req) eqn:Hc.
    + unfold cache_put, then_, emit. simpl.
      destruct (put_fails h DYNAMIC_CACHE (url req)) eqn:Hput; simpl;
        (eexists; split; [reflexivity|]).
      * repeat split; try discriminate.
        intros cache key. left. rewrite <- Hent. apply entry_registry. reflexivity.
      * assert (Hupd : forall cache key,
          entry
            (set_registry
               (registry_update DYNAMIC_CACHE (fun c => <[url req := clone nr]> c) (registry w1))
               {| registry := registry w1;
                  trace := trace w1 ++ [CachePut DYNAMIC_CACHE (url req) (clone nr)] |})
            cache key =
          if bool_decide (cache = DYNAMIC_CACHE /\ key = url req) then Some nr
          else entry w cache key).
        { intros cache key. rewrite <- Hent.
          rewrite <- (entry_after_put w1 DYNAMIC_CACHE (url req) nr cache key Hsome).
          apply entry_registry. reflexivity. }
        split; [|split; [discriminate|]].
        -- intros cache key. rewrite Hupd. case_bool_decide as Hk; [right|left; reflexivity].
           destruct Hk as [-> ->]. auto.
        -- intros _ _ _. rewrite Hupd. rewrite bool_decide_eq_true_2; auto.
    + simpl. eexists. split; [reflexivity|]. repeat split; try discriminate; auto.
Qed.

Lemma on_network_response_invalid h req nr w :
  status nr <> 200 \/ type nr <> basic ->
  on_network_response h req nr w = (Fulfilled nr, w).
Proof.
  intros Hbad. unfold on_network_response.
  assert (Hc : negb (status nr =? 200) || negb (ResponseType_eqb (type nr) basic) = true).
  { destruct Hbad as [Hs|Ht].
    - apply Z.eqb_neq in Hs. rewrite Hs. reflexivity.
    - destruct (type nr); try congruence; apply orb_true_r. }
  rewrite Hc. reflexivity.
Qed.

(** A cache miss: the request goes to the network. *)
Lemma on_fetch_miss h req w :
  skipped req = false -> is_api_request req = false ->
  first_match (url req) (registry w) = None ->
  on_fetch h req w =
  match network h (url req) with
  | Some nr =>
      let (r, w') := on_network_response h req nr (snd (emit (NetFetch (url req)) w)) in
      (RespondWith r, w')
  | None =>
      (RespondWith (Rejected "TypeError: Failed to fetch"),
       snd (console WARN "Service Worker: Fetch failed" (snd (emit (NetFetch (url req)) w))))
  end.
Proof.
  intros Hskip Hapi Hmiss. unfold on_fetch. rewrite Hskip, Hapi.
  unfold respondWith, then_ at 1, caches_match. rewrite Hmiss.
  unfold catch_, then_ at 1, fetch, then_ at 1. simpl.
  destruct (network h (url req)) as [nr|]; simpl.
  - destruct (on_network_response h req nr _) as [[r|e] w'] eqn:Hr; [reflexivity|].
    exfalso. revert Hr. unfold on_network_response.
    destruct (_ || _); [discriminate|]. unfold then_, detached, resolve. discriminate.
  - reflexivity.
Qed.

Lemma on_fetch_hit h req w cached :
  skipped req = false -> is_api_request req = false ->
  first_match (url req) (registry w) = Some cached ->
  on_fetch h req w = (RespondWith (Fulfilled cached), w).
Proof.
  intros Hskip Hapi Hhit. unfold on_fetch. rewrite Hskip, Hapi.
  unfold respondWith, then_, caches_match. rewrite Hhit. reflexivity.
Qed.

(** Whatever the request, the only entry the router can change is the one
    of the request's URL in the dynamic cache, and only to a response that
    passed the check of line 93. *)
Lemma on_fetch_writes h req w cache key :
  entry (snd (on_fetch h req w)) cache key = entry w cache key \/
  (cache = DYNAMIC_CACHE /\ key = url req /\ isCacheable h req = true /\
   exists nr, network h (url req) = Some nr /\ status nr = 200 /\ type nr = basic /\
              entry (snd (on_fetch h req w)) cache key = Some nr).
Proof.
  destruct (skipped req) eqn:Hskip.
  { left. unfold on_fetch. rewrite Hskip. reflexivity. }
  destruct (is_api_request req) eqn:Hapi.
  { left. unfold on_fetch. rewrite Hskip, Hapi.
    unfold respondWith, fetch, then_, emit.
    destruct (network h (url req)); reflexivity. }
  destruct (first_match (url req) (registry w)) as [cached|] eqn:Hm.
  { left. rewrite (on_fetch_hit h req w cached) by assumption. reflexivity. }
  rewrite on_fetch_miss by assumption.
  destruct (network h (url req)) as [nr|] eqn:Hnet; [|left; reflexivity].
  destruct (Z.eq_dec (status nr) 200) as [Hs|Hs].
  - destruct (type nr) eqn:Ht;
      try (rewrite on_network_response_invalid by (right; congruence);
           left; reflexivity).
    destruct (on_network_response_valid h req nr (snd (emit (NetFetch (url req)) w)) Hs Ht)
      as (w' & -> & Hw & _).
    simpl. destruct (Hw cache key) as [Hsame|(-> & -> & Hc & Hnew)].
    + left. rewrite Hsame. reflexivity.
    + right. repeat split; auto. exists nr. auto.
  - rewrite on_network_response_invalid by (left; assumption). left. reflexivity.
Qed.

(** C4. For every intercepted request (not skipped, not an API request)
    that matches a cached entry, the router answers with the cached response
    and leaves the world as it was: no network request is issued (the trace
    gains no [NetFetch]), nothing is compared and nothing is written. *)
Theorem router_cache_hit_no_network h req w cached :
  skipped req = false -> is_api_request req = false ->
  first_match (url req) (registry w) = Some cached ->
  on_fetch h req w = (RespondWith (Fulfilled cached), w) /\
  trace (snd (on_fetch h req w)) = trace w.
Proof.
  intros Hskip Hapi Hhit.
  rewrite (on_fetch_hit h req w cached) by assumption. split; reflexivity.
Qed.

Lemma router_cache_hit_no_network_witness :
  on_fetch offline_index_host (get_request "https://logogen.example/") installed_world =
    (RespondWith (Fulfilled (plain_response 200 basic None "stale")), installed_world) /\
  trace (snd (on_fetch offline_index_host (get_request "https://logogen.example/")
                installed_world)) = trace installed_world.
Proof.
  apply (router_cache_hit_no_network offline_index_host
           (get_request "https://logogen.example/") installed_world
           (plain_response 200 basic None "stale")); reflexivity.
Defined.

(** C5. For every cache miss whose network response has a status other than
    200 or a type other than basic, the router answers with that response
    as it is and stores nothing: the registry is unchanged (the dynamic
    cache is not even opened) and a later match of the request is absent. *)
Theorem router_invalid_response_not_stored h req w nr :
  skipped req = false -> is_api_request req = false ->
  first_match (url req) (registry w) = None ->
  network h (url req) = Some nr ->
  status nr <> 200 \/ type nr <> basic ->
  exists w',
    on_fetch h req w = (RespondWith (Fulfilled nr), w') /\
    registry w' = registry w /\
    trace w' = (trace w ++ [NetFetch (url req)])%list /\
    first_match (url req) (registry w') = None /\
    entry w' DYNAMIC_CACHE (url req) = None.
Proof.
  intros Hskip Hapi Hmiss Hnet Hbad.
  rewrite on_fetch_miss by assumption. rewrite Hnet.
  rewrite on_network_response_invalid by assumption.
  eexists. split; [reflexivity|]. simpl. repeat split; auto.
  rewrite <- (entry_miss w req DYNAMIC_CACHE Hmiss). apply entry_registry. reflexivity.
Qed.

Lemma router_invalid_response_not_stored_witness :
  exists w',
    on_fetch quiet_host (get_request "https://cdn.third.party/lib.js") (fresh []) =
      (RespondWith (Fulfilled (plain_response 200 cors None "fresh")), w') /\
    registry w' = [] /\
    trace w' = [NetFetch "https://cdn.third.party/lib.js"] /\
    first_match "https://cdn.third.party/lib.js" (registry w') = None /\
    entry w' DYNAMIC_CACHE "https://cdn.third.party/lib.js" = None.
Proof.
  apply (router_invalid_response_not_stored quiet_host
           (get_request "https://cdn.third.party/lib.js") (fresh [])
           (plain_response 200 cors None "fresh")); try reflexivity.
  right. simpl. discriminate.
Defined.





Lemma quiet_host_basic_is_same_origin : basic_is_same_origin quiet_host.
Proof.
  intros u r. simpl. unfold origin_by_prefix.
  destruct (startsWith u "https://logogen.example/"); simpl.
  - reflexivity.
  - intros [= <-]. discriminate.
Qed.


(** C9. Every entry that a routing step creates or changes lies in the
    dynamic cache under the request's URL and holds the network response of
    that URL, which has status 200 and type basic: the URL lists of the
    write condition are consulted only after the basic-type check, so they
    admit no response of another type.  Since the host gives the type basic
    only to same-origin requests, the URL written is of the worker's own
    origin. *)
Theorem router_stores_basic_only h req w cache key r :
  entry (snd (on_fetch h req w)) cache key = Some r ->
  entry w cache key <> Some r ->
  cache = DYNAMIC_CACHE /\ key = url req /\
  network h key = Some r /\ status r = 200 /\ type r = basic /\
  (basic_is_same_origin h -> url_origin h key = location_origin h).
Proof.
  intros Hnew Hold.
  destruct (on_fetch_writes h req w cache key)
    as [Hsame|(-> & -> & _ & nr & Hnet & Hs & Ht & Hent)].
  - congruence.
  - assert (nr = r) as -> by congruence.
    repeat split; auto. intros Hhost. eapply Hhost; eassumption.
Qed.

Lemma router_stores_basic_only_witness :
  type (plain_response 200 basic None "fresh") = basic /\
  url_origin quiet_host "https://logogen.example/app.js" = location_origin quiet_host.
Proof.
  destruct (router_stores_basic_only quiet_host
              (get_request "https://logogen.example/app.js") (fresh [])
              DYNAMIC_CACHE "https://logogen.example/app.js"
              (plain_response 200 basic None "fresh"))
    as (_ & _ & _ & _ & Ht & Ho).
  - reflexivity.
  - simpl. discriminate.
  - split; [exact Ht|exact (Ho quiet_host_basic_is_same_origin)].
Defined.

(** ** The notification bridge *)

(** C8. A GET_VERSION message that carries a reply port is answered on that
    port with version 1.0.0 and cache name logo-package-generator-v1.0.0,
    whatever the registry holds; the registry is not touched. *)
Theorem get_version_reply (w : World) (port : nat) (rest : list nat) :
  on_message {| data := Some {| msg_type := "GET_VERSION" |}; ports := port :: rest |} w =
  (Fulfilled tt,
   {| registry := registry w;
      trace := (trace w ++
                [Console LOG "Service Worker: Message received";
                 PortMessage port {| version := "1.0.0";
                                     cacheName := "logo-package-generator-v1.0.0" |}])%list |}).
Proof.
  unfold on_message, then_, console, port_postMessage, emit, resolve. simpl.
  rewrite <- app_assoc. reflexivity.
Qed.

(** Without a reply port the handler throws and nothing is sent. *)
Lemma get_version_without_port (w : World) :
  on_message {| data := Some {| msg_type := "GET_VERSION" |}; ports := [] |} w =
  (Rejected "TypeError: Cannot read properties of undefined",
   {| registry := registry w;
      trace := (trace w ++ [Console LOG "Service Worker: Message received"])%list |}).
Proof. reflexivity. Qed.

(** ** The lifecycle controller *)

(** The promise the install listener hands to [waitUntil] is fulfilled on
    every host: the [catch] of line 37 turns a rejection into a log line. *)
Lemma on_install_fulfilled h w : fst (on_install h w) = Fulfilled tt.
Proof.
  unfold on_install, console. unfold then_ at 1. simpl. unfold catch_.
  match goal with |- context [then_ ?p ?f ?x] => destruct (then_ p f x) as [[[]|e] w'] end;
    reflexivity.
Qed.

Lemma install_never_fails h w : after_install (fst (on_install h w)) = ACTIVATING.
Proof. rewrite on_install_fulfilled. reflexivity. Qed.

(** C1 (the code departs from the claim). On a host where the fetch of
    /index.html fails, [cache.addAll] rejects and stores nothing, but the
    install promise is fulfilled: the lifecycle goes on to activation and
    not to FAILED.  The failure is only logged, and [skipWaiting] is not
    called. *)
Theorem install_failure_is_swallowed :
  network offline_index_host (request_url offline_index_host "/index.html") = None /\
  fst (on_install offline_index_host (fresh [])) = Fulfilled tt /\
  after_install (fst (on_install offline_index_host (fresh []))) = ACTIVATING /\
  registry (snd (on_install offline_index_host (fresh []))) = [(STATIC_CACHE, ∅)] /\
  last (trace (snd (on_install offline_index_host (fresh [])))) =
    Some (Console ERROR "Service Worker: Installation failed") /\
  ~ In SkipWaiting (trace (snd (on_install offline_index_host (fresh [])))).
Proof.
  split; [reflexivity|]. split; [apply on_install_fulfilled|].
  split; [apply install_never_fails|].
  split; [vm_compute; reflexivity|]. split; [vm_compute; reflexivity|].
  vm_compute. intuition discriminate.
Qed.

Lemma filter_all {A} (f : A -> bool) (l : list A) :
  (forall x, In x l -> f x = true) -> List.filter f l = l.
Proof.
  induction l as [|x l IH]; simpl; intros Hall; [reflexivity|].
  rewrite Hall by auto. f_equal. apply IH. auto.
Qed.

Lemma filter_filter {A} (f g : A -> bool) (l : list A) :
  List.filter f (List.filter g l) = List.filter (fun x => g x && f x) l.
Proof.
  induction l as [|x l IH]; simpl; [reflexivity|].
  destruct (g x); simpl; [destruct (f x)|]; rewrite IH; reflexivity.
Qed.

(** The deletions of the activation phase: one is started for every
    superseded name, whatever happens to the others. *)
Lemma sweep_spec h names : forall w,
  exists r w',
    promise_all (map (delete_if_superseded h) names) w = (r, w') /\
    registry w' = List.filter (survives h names) (registry w) /\
    trace w' = (trace w ++ sweep_events names)%list /\
    is_fulfilled r = deletes_succeed h names /\
    (deletes_succeed h names = false -> r = Rejected "caches.delete failed").
Proof.
  induction names as [|n names IH]; intros w.
  - exists (Fulfilled []), w. simpl. repeat split; try discriminate.
    + symmetry. apply filter_all. reflexivity.
    + rewrite app_nil_r. reflexivity.
  - cbn [map promise_all]. unfold delete_if_superseded at 1.
    unfold deletes_succeed, delete_refused, sweep_events, survives.
    cbn [forallb flat_map existsb].
    destruct (superseded n) eqn:Hsup.
    + unfold then_, console, caches_delete, emit, then_, resolve. cbn [fst snd].
      destruct (delete_fails h n) eqn:Hdel.
      * match goal with |- context [promise_all _ ?w1] =>
          destruct (IH w1) as (r & w' & Heq & Hreg & Htr & _) end.
        rewrite Heq. cbn [snd]. eexists _, w'. split; [reflexivity|].
        repeat split.
        -- rewrite Hreg. cbn [registry]. apply filter_ext. intros [m c]. cbn [fst].
           rewrite andb_false_r, orb_false_l. reflexivity.
        -- rewrite Htr. cbn [trace]. rewrite <- !app_assoc. reflexivity.
      * match goal with |- context [promise_all _ ?w1] =>
          destruct (IH w1) as (r & w' & Heq & Hreg & Htr & Hful & Hrej) end.
        rewrite Heq. cbn [negb andb].
        assert (Hreg' : registry w' =
                  List.filter (fun nc => negb ((String.eqb (fst nc) n && true)
                    || existsb (fun n0 => String.eqb (fst nc) n0 &&
                                          (superseded n0 && negb (delete_fails h n0))) names))
                    (registry w)).
        { rewrite Hreg. cbn [registry set_registry]. unfold registry_remove.
          rewrite filter_filter. apply filter_ext. intros [m c]. cbn [fst].
          unfold survives. cbn [fst]. rewrite andb_true_r, negb_orb. reflexivity. }
        assert (Htr' : trace w' =
                  (trace w ++ (Console LOG "Service Worker: Deleting old cache"
                               :: CacheDelete n :: nil) ++ sweep_events names)%list).
        { rewrite Htr. cbn [trace set_registry]. rewrite <- !app_assoc. reflexivity. }
        unfold deletes_succeed, delete_refused in Hful, Hrej.
        destruct r as [l|e]; eexists _, w'; (split; [reflexivity|]);
          repeat split; auto.
        intros Hf. cbn [is_fulfilled] in Hful. congruence.
    + unfold resolve at 1.
      destruct (IH w) as (r & w' & Heq & Hreg & Htr & Hful & Hrej).
      rewrite Heq. cbn [negb andb app].
      assert (Hreg' : registry w' =
                List.filter (fun nc => negb ((String.eqb (fst nc) n && false)
                  || existsb (fun n0 => String.eqb (fst nc) n0 &&
                                        (superseded n0 && negb (delete_fails h n0))) names))
                  (registry w)).
      { rewrite Hreg. apply filter_ext. intros [m c]. cbn [fst].
        rewrite andb_false_r. reflexivity. }
      unfold deletes_succeed, delete_refused in Hful, Hrej.
      destruct r as [l|e]; eexists _, w'; (split; [reflexivity|]);
        repeat split; auto.
      intros Hf. cbn [is_fulfilled] in Hful. congruence.
Qed.

Lemma survives_own_name h names nc :
  In (fst nc) names ->
  survives h names nc = negb (superseded (fst nc)) || delete_fails h (fst nc).
Proof.
  intros Hin. unfold survives.
  assert (Hex : existsb (fun n => String.eqb (fst nc) n &&
                                  (superseded n && negb (delete_fails h n))) names =
                superseded (fst nc) && negb (delete_fails h (fst nc))).
  { apply Bool.eq_iff_eq_true. rewrite existsb_exists. split.
    - intros (n & _ & Hn). apply andb_prop in Hn as [Heq Hn].
      apply String.eqb_eq in Heq. rewrite Heq. exact Hn.
    - intros Hn. exists (fst nc). rewrite String.eqb_refl. auto. }
  rewrite Hex. destruct (superseded (fst nc)), (delete_fails h (fst nc)); reflexivity.
Qed.

(** The activation phase in closed form. *)
Lemma on_activate_closed_form h w :
  exists r w',
    on_activate h w = (r, w') /\
    registry w' =
      List.filter (fun nc => negb (superseded (fst nc)) || delete_fails h (fst nc))
        (registry w) /\
    trace w' =
      (trace w ++ [Console LOG "Service Worker: Activating..."]
         ++ sweep_events (map fst (registry w))
         ++ (if deletes_succeed h (map fst (registry w))
             then [Console LOG "Service Worker: Activate completed"; ClientsClaim]
             else []))%list /\
    r = if deletes_succeed h (map fst (registry w))
        then Fulfilled tt else Rejected "caches.delete failed".
Proof.
  unfold on_activate, console. unfold then_ at 1. cbn [emit].
  unfold then_ at 1. unfold then_ at 1. unfold caches_keys at 1. cbn [registry].
  match goal with |- context [promise_all _ ?w1] =>
    destruct (sweep_spec h (map fst (registry w)) w1) as (r & w' & Heq & Hreg & Htr & Hful & Hrej)
  end.
  rewrite Heq. cbn [registry trace] in Hreg, Htr.
  assert (Hreg' : registry w' =
            List.filter (fun nc => negb (superseded (fst nc)) || delete_fails h (fst nc))
              (registry w)).
  { rewrite Hreg. apply filter_ext_in. intros nc Hin.
    apply survives_own_name. apply in_map. exact Hin. }
  destruct (deletes_succeed h (map fst (registry w))) eqn:Hok.
  - destruct r as [l|e]; [|discriminate].
    unfold then_, clients_claim, emit. cbn [registry trace].
    eexists _, _. split; [reflexivity|]. cbn [registry trace].
    repeat split; auto. rewrite Htr, <- !app_assoc. reflexivity.
  - rewrite (Hrej eq_refl). exists (Rejected "caches.delete failed"), w'.
    repeat split; auto. rewrite Htr, app_nil_r, <- !app_assoc. reflexivity.
Qed.

Lemma sweep_events_deletes names :
  List.filter is_delete (sweep_events names) = map CacheDelete (List.filter superseded names).
Proof.
  induction names as [|n names IH]; simpl; [reflexivity|].
  destruct (superseded n); simpl; rewrite IH; reflexivity.
Qed.

Lemma sweep_events_inv names e :
  In e (sweep_events names) ->
  e = Console LOG "Service Worker: Deleting old cache" \/ exists n, e = CacheDelete n.
Proof.
  unfold sweep_events. rewrite in_flat_map. intros (n & _ & Hin).
  destruct (superseded n); simpl in Hin; intuition eauto.
Qed.



Example activate_with_refused_delete :
  on_activate stuck_delete_host old_version_world =
  (Rejected "caches.delete failed",
   {| registry := [("old-static", ∅); (STATIC_CACHE, ∅)];
      trace := [Console LOG "Service Worker: Activating...";
                Console LOG "Service Worker: Deleting old cache";
                CacheDelete "old-static";
                Console LOG "Service Worker: Deleting old cache";
                CacheDelete "old-dynamic"] |}).
Proof. vm_compute. reflexivity. Qed.

(** ** The reconciler *)

Lemma registry_update_ext name f g reg c :
  registry_lookup name reg = Some c -> f c = g c ->
  registry_update name f reg = registry_update name g reg.
Proof.
  intros Hl Hfg. induction reg as [|[n c0] reg IH]; simpl in *; [reflexivity|].
  destruct (String.eqb n name).
  - injection Hl as ->. rewrite Hfg. reflexivity.
  - rewrite IH by assumption. reflexivity.
Qed.

Lemma registry_update_id name reg c :
  registry_lookup name reg = Some c -> registry_update name (fun _ => c) reg = reg.
Proof.
  intros Hl. induction reg as [|[n c0] reg IH]; simpl in *; [reflexivity|].
  destruct (String.eqb n name).
  - injection Hl as ->. reflexivity.
  - rewrite IH by assumption. reflexivity.
Qed.

Lemma registry_update_twice name f c reg :
  registry_update name (fun _ => c) (registry_update name f reg) =
  registry_update name (fun _ => c) reg.
Proof.
  induction reg as [|[n c0] reg IH]; simpl; [reflexivity|].
  destruct (String.eqb n name) eqn:Hn; simpl; rewrite Hn; [reflexivity|].
  rewrite IH. reflexivity.
Qed.

Lemma flat_map_ext_on {A B} (f g : A -> list B) (l : list A) :
  (forall x, In x l -> f x = g x) -> flat_map f l = flat_map g l.
Proof.
  induction l as [|x l IH]; intros Hfg; cbn [flat_map]; [reflexivity|].
  rewrite Hfg by (left; reflexivity). rewrite IH by (intros y Hy; apply Hfg; right; exact Hy).
  reflexivity.
Qed.

Section Pass.

Variable h : Host.

(** One turn of the loop, on a world whose static cache holds [c]. *)
Lemma update_asset_spec a acc w c :
  registry_lookup STATIC_CACHE (registry w) = Some c ->
  update_asset h STATIC_CACHE a acc w =
  (Fulfilled (acc ++ (if is_refreshed h (c !! request_url h a) a then [a] else []))%list,
   {| registry := registry_update STATIC_CACHE (fun _ => next_cache h c a) (registry w);
      trace := (trace w ++ asset_events h (c !! request_url h a) a)%list |}).
Proof.
  intros Hc.
  unfold update_asset, next_cache, is_refreshed, refreshed, asset_events.
  unfold catch_, then_ at 1, fetch, then_ at 1, emit.
  destruct (network h (request_url h a)) as [n|] eqn:Hnet; cbn [reject resolve].
  - unfold then_ at 1, cache_match, entry. cbn [registry]. rewrite Hc.
    destruct (needs_update n (c !! request_url h a)) eqn:Hneed; cbn [andb].
    + unfold then_, cache_put, then_, emit, resolve. cbn [registry trace].
      destruct (put_fails h STATIC_CACHE (request_url h a)) eqn:Hput; cbn [negb].
      * unfold console, emit. cbn [registry trace].
        rewrite app_nil_r, <- !app_assoc, (registry_update_id _ _ _ Hc). reflexivity.
      * unfold set_registry. cbn [registry trace]. unfold clone.
        rewrite <- !app_assoc.
        rewrite (registry_update_ext STATIC_CACHE
                   (fun c0 => <[request_url h a := n]> c0)
                   (fun _ => <[request_url h a := n]> c) (registry w) c Hc eq_refl).
        reflexivity.
    + unfold resolve. rewrite app_nil_r, (registry_update_id _ _ _ Hc). reflexivity.
  - unfold console, then_, emit, resolve. cbn [registry trace].
    rewrite app_nil_r, <- !app_assoc, (registry_update_id _ _ _ Hc). reflexivity.
Qed.

(** The whole loop. *)
Lemma for_of_pass l : forall acc w c,
  registry_lookup STATIC_CACHE (registry w) = Some c ->
  for_of l (update_asset h STATIC_CACHE) acc w =
  (Fulfilled (acc ++ pass_updated h l c)%list,
   {| registry := registry_update STATIC_CACHE (fun _ => fold_left (next_cache h) l c)
                    (registry w);
      trace := (trace w ++ pass_events h l c)%list |}).
Proof.
  induction l as [|a l IH]; intros acc w c Hc; cbn [for_of pass_updated pass_events fold_left].
  - unfold resolve. rewrite !app_nil_r, (registry_update_id _ _ _ Hc).
    destruct w; reflexivity.
  - unfold then_. rewrite (update_asset_spec a acc w c Hc).
    rewrite (IH _ _ (next_cache h c a)).
    + cbn [registry trace]. rewrite registry_update_twice, <- !app_assoc. reflexivity.
    + cbn [registry]. rewrite registry_lookup_update, String.eqb_refl, Hc. reflexivity.
Qed.

(** Entries whose key is not the key of an asset of the pass are kept. *)
Lemma pass_frame l : forall c k,
  ~ In k (map (request_url h) l) -> fold_left (next_cache h) l c !! k = c !! k.
Proof.
  induction l as [|a l IH]; intros c k Hk; cbn [fold_left]; [reflexivity|].
  cbn [map] in Hk. rewrite IH by (intros Hin; apply Hk; right; exact Hin).
  unfold next_cache. destruct (refreshed h _ a); [|reflexivity].
  apply lookup_insert_ne. intros Heq. apply Hk. left. exact Heq.
Qed.

Lemma next_cache_other c a k :
  k <> request_url h a -> next_cache h c a !! k = c !! k.
Proof.
  intros Hk. unfold next_cache. destruct (refreshed h _ a); [|reflexivity].
  apply lookup_insert_ne. congruence.
Qed.

(** With pairwise distinct keys every asset is judged against the copy the
    cache held when the pass began. *)
Lemma pass_updated_filter l : forall c,
  List.NoDup (map (request_url h) l) ->
  pass_updated h l c = List.filter (fun a => is_refreshed h (c !! request_url h a) a) l.
Proof.
  induction l as [|a l IH]; intros c Hnd; cbn [pass_updated List.filter]; [reflexivity|].
  cbn [map] in Hnd. apply NoDup_cons_iff in Hnd as [Hnotin Hnd].
  rewrite (IH _ Hnd).
  assert (Hext : List.filter (fun b => is_refreshed h (next_cache h c a !! request_url h b) b) l =
                 List.filter (fun b => is_refreshed h (c !! request_url h b) b) l).
  { apply filter_ext_in. intros b Hb. rewrite next_cache_other; [reflexivity|].
    intros Heq. apply Hnotin. rewrite <- Heq. apply in_map. exact Hb. }
  rewrite Hext. destruct (is_refreshed h (c !! request_url h a) a); reflexivity.
Qed.

Lemma pass_events_flat_map l : forall c,
  List.NoDup (map (request_url h) l) ->
  pass_events h l c = flat_map (fun a => asset_events h (c !! request_url h a) a) l.
Proof.
  induction l as [|a l IH]; intros c Hnd; cbn [pass_events flat_map]; [reflexivity|].
  cbn [map] in Hnd. apply NoDup_cons_iff in Hnd as [Hnotin Hnd].
  rewrite (IH _ Hnd). f_equal.
  apply flat_map_ext_on. intros b Hb. rewrite next_cache_other; [reflexivity|].
  intros Heq. apply Hnotin. rewrite <- Heq. apply in_map. exact Hb.
Qed.

Lemma pass_cache_lookup l : forall c a,
  List.NoDup (map (request_url h) l) -> In a l ->
  fold_left (next_cache h) l c !! request_url h a =
  match refreshed h (c !! request_url h a) a with
  | Some n => Some n
  | None => c !! request_url h a
  end.
Proof.
  induction l as [|b l IH]; intros c a Hnd Hin; [destruct Hin|].
  cbn [map] in Hnd. apply NoDup_cons_iff in Hnd as [Hnotin Hnd]. cbn [fold_left].
  destruct Hin as [->|Hin].
  - rewrite pass_frame by exact Hnotin. unfold next_cache.
    destruct (refreshed h (c !! request_url h a) a); [apply lookup_insert_eq|reflexivity].
  - assert (Hne : request_url h a <> request_url h b).
    { intros Heq. apply Hnotin. rewrite <- Heq. apply in_map. exact Hin. }
    rewrite (IH _ a Hnd Hin), next_cache_other by exact Hne. reflexivity.
Qed.

End Pass.

(** *** The keys of the manifest *)

Lemma last_char_append o s : s <> "" -> last_char (o +:+ s) = last_char s.
Proof.
  intros Hs. induction o as [|a o IH]; [reflexivity|].
  change (String a o +:+ s) with (String a (o +:+ s)).
  assert (Hne : o +:+ s <> "") by (destruct o; [exact Hs|discriminate]).
  destruct (o +:+ s) eqn:E; [contradiction|]. exact IH.
Qed.

Lemma static_keys_eq h :
  static_keys h =
  [ location_origin h +:+ "/";
    location_origin h +:+ "/index.html";
    location_origin h +:+ "/manifest.json";
    "https://i.postimg.cc/dtq83xGm/logo-512x512.png";
    "https://cdnjs.cloudflare.com/ajax/libs/font-awesome/6.4.0/css/all.min.css";
    "https://cdnjs.cloudflare.com/ajax/libs/jszip/3.10.1/jszip.min.js";
    "https://cdnjs.cloudflare.com/ajax/libs/FileSaver.js/2.0.5/FileSaver.min.js" ].
Proof. reflexivity. Qed.

(** Two manifest keys are told apart by their last character or, when both
    are absolute URLs, by comparing them. *)
Ltac keys_differ H :=
  first
    [ discriminate H
    | apply (f_equal last_char) in H;
      rewrite ?last_char_append in H by discriminate;
      cbn in H; discriminate H ].

Lemma static_keys_NoDup h : List.NoDup (static_keys h).
Proof.
  rewrite static_keys_eq.
  repeat (constructor; [cbn [In]; intros Hin;
    repeat (destruct Hin as [Hin|Hin]; [keys_differ Hin|]); exact Hin|]).
  constructor.
Qed.

Lemma external_not_static h e :
  In e EXTERNAL_RESOURCES -> ~ In (request_url h e) (static_keys h).
Proof.
  rewrite static_keys_eq. unfold EXTERNAL_RESOURCES. cbn [In].
  intros [<-|[<-|[<-|[]]]] Hin; cbn in Hin;
    repeat (destruct Hin as [Hin|Hin]; [keys_differ Hin|]); exact Hin.
Qed.

Lemma external_not_first_party e : In e EXTERNAL_RESOURCES -> ~ In e STATIC_ASSETS.
Proof.
  unfold EXTERNAL_RESOURCES, STATIC_ASSETS. cbn [In].
  intros [<-|[<-|[<-|[]]]] Hin;
    repeat (destruct Hin as [Hin|Hin]; [discriminate Hin|]); exact Hin.
Qed.

(** *** The pass as a whole *)

Lemma forEach_postMessage m l : forall w,
  forEach l (fun client => client_postMessage client m) w =
  (Fulfilled tt,
   {| registry := registry w;
      trace := (trace w ++ map (fun c => PostMessage c m) l)%list |}).
Proof.
  induction l as [|c l IH]; intros w; cbn [forEach map].
  - unfold resolve. rewrite app_nil_r. destruct w; reflexivity.
  - unfold then_, client_postMessage, emit. rewrite IH. cbn [registry trace].
    rewrite <- app_assoc. reflexivity.
Qed.

Lemma open_static h w :
  open_fails h STATIC_CACHE = false ->
  exists w1 c1,
    caches_open h STATIC_CACHE w = (Fulfilled STATIC_CACHE, w1) /\
    registry_lookup STATIC_CACHE (registry w1) = Some c1 /\
    trace w1 = trace w /\
    (forall cache key, entry w1 cache key = entry w cache key) /\
    (forall k, c1 !! k = entry w STATIC_CACHE k).
Proof.
  intros Hopen.
  destruct (caches_open_spec h STATIC_CACHE w Hopen) as (w1 & Heq & Htr & [c1 Hc1] & Hent).
  exists w1, c1. repeat split; auto.
  intros k. rewrite <- Hent. unfold entry. rewrite Hc1. reflexivity.
Qed.

Lemma filter_refreshed_ext h (c1 : gmap string Response) w l :
  (forall k, c1 !! k = entry w STATIC_CACHE k) ->
  List.filter (fun a => is_refreshed h (c1 !! request_url h a) a) l =
  List.filter (fun a => is_refreshed h (entry w STATIC_CACHE (request_url h a)) a) l.
Proof. intros Hc. apply filter_ext. intros a. rewrite Hc. reflexivity. Qed.

(** The array [updatedAssets] at the end of the loop: the first-party
    assets, in manifest order, whose copy was replaced. *)
Lemma updatedAssets_of_closed h w :
  updatedAssets_of h w =
  if open_fails h STATIC_CACHE then []
  else List.filter (fun a => is_refreshed h (entry w STATIC_CACHE (request_url h a)) a)
         STATIC_ASSETS.
Proof.
  unfold updatedAssets_of, then_.
  destruct (open_fails h STATIC_CACHE) eqn:Hopen.
  - unfold caches_open. rewrite Hopen. reflexivity.
  - destruct (open_static h w Hopen) as (w1 & c1 & -> & Hc1 & _ & _ & Hc).
    rewrite (for_of_pass h STATIC_ASSETS [] w1 c1 Hc1). cbn [app].
    rewrite pass_updated_filter by apply static_keys_NoDup.
    apply filter_refreshed_ext, Hc.
Qed.

Lemma checkForUpdates_open_fails h w :
  open_fails h STATIC_CACHE = true ->
  checkForUpdates h w =
  (Fulfilled tt,
   {| registry := registry w;
      trace := (trace w ++ [Console ERROR "Service Worker: Update check failed"])%list |}).
Proof.
  intros Hopen. unfold checkForUpdates, catch_, then_, caches_open.
  rewrite Hopen. reflexivity.
Qed.

(** A pass that can open the static cache, in closed form. *)
Lemma checkForUpdates_closed h w :
  open_fails h STATIC_CACHE = false ->
  exists w',
    checkForUpdates h w = (Fulfilled tt, w') /\
    trace w' =
      (trace w
       ++ flat_map (fun a => asset_events h (entry w STATIC_CACHE (request_url h a)) a)
            STATIC_ASSETS
       ++ match updatedAssets_of h w with
          | [] => []
          | _ :: _ =>
              Console LOG "Service Worker: Updated assets"
              :: map (fun c => PostMessage c (ASSETS_UPDATED (updatedAssets_of h w)))
                   (clients h)
          end)%list /\
    (forall cache key,
        cache <> STATIC_CACHE \/ ~ In key (static_keys h) ->
        entry w' cache key = entry w cache key) /\
    (forall a, In a STATIC_ASSETS ->
        entry w' STATIC_CACHE (request_url h a) =
        match refreshed h (entry w STATIC_CACHE (request_url h a)) a with
        | Some n => Some n
        | None => entry w STATIC_CACHE (request_url h a)
        end).
Proof.
  intros Hopen.
  assert (Hupd := updatedAssets_of_closed h w). rewrite Hopen in Hupd.
  destruct (open_static h w Hopen) as (w1 & c1 & Heq & Hc1 & Htr & Hent & Hc).
  assert (Hpu : pass_updated h STATIC_ASSETS c1 = updatedAssets_of h w).
  { rewrite Hupd, pass_updated_filter by apply static_keys_NoDup.
    apply filter_refreshed_ext, Hc. }
  assert (Hpe : pass_events h STATIC_ASSETS c1 =
                flat_map (fun a => asset_events h (entry w STATIC_CACHE (request_url h a)) a)
                  STATIC_ASSETS).
  { rewrite pass_events_flat_map by apply static_keys_NoDup.
    apply flat_map_ext_on. intros a _. rewrite Hc. reflexivity. }
  assert (Hentries : forall w2,
    registry w2 = registry_update STATIC_CACHE
                    (fun _ => fold_left (next_cache h) STATIC_ASSETS c1) (registry w1) ->
    (forall cache key,
        cache <> STATIC_CACHE \/ ~ In key (static_keys h) ->
        entry w2 cache key = entry w cache key) /\
    (forall a, In a STATIC_ASSETS ->
        entry w2 STATIC_CACHE (request_url h a) =
        match refreshed h (entry w STATIC_CACHE (request_url h a)) a with
        | Some n => Some n
        | None => entry w STATIC_CACHE (request_url h a)
        end)).
  { intros w2 Hreg. split.
    - intros cache key Hout. rewrite <- Hent. unfold entry. rewrite Hreg.
      rewrite registry_lookup_update.
      destruct (String.eqb_spec cache STATIC_CACHE) as [->|Hne]; [|reflexivity].
      rewrite Hc1. cbn [fmap option_fmap option_map].
      destruct Hout as [Hout|Hout]; [congruence|].
      apply pass_frame. exact Hout.
    - intros a Ha. unfold entry at 1. rewrite Hreg, registry_lookup_update, String.eqb_refl, Hc1.
      cbn [fmap option_fmap option_map].
      rewrite (pass_cache_lookup h STATIC_ASSETS c1 a (static_keys_NoDup h) Ha), Hc.
      reflexivity. }
  unfold checkForUpdates, catch_. unfold then_ at 1. rewrite Heq.
  unfold then_ at 1. rewrite (for_of_pass h STATIC_ASSETS [] w1 c1 Hc1). cbn [app].
  rewrite Hpu, Hpe, Htr.
  destruct (updatedAssets_of h w) as [|a0 upd] eqn:Hu.
  - cbn [length Nat.ltb Nat.leb]. unfold resolve.
    eexists. split; [reflexivity|]. cbn [trace]. split; [rewrite app_nil_r; reflexivity|].
    apply Hentries. reflexivity.
  - cbn [length Nat.ltb Nat.leb]. unfold then_, console, emit, clients_matchAll, resolve.
    rewrite forEach_postMessage. cbn [registry trace].
    eexists. split; [reflexivity|]. cbn [trace].
    split; [rewrite <- !app_assoc; reflexivity|].
    apply Hentries. reflexivity.
Qed.

(** A pass always completes; this is what it leaves behind. *)
Lemma checkForUpdates_spec h w :
  exists w',
    checkForUpdates h w = (Fulfilled tt, w') /\
    trace w' = (trace w ++ pass_trace h w)%list /\
    (forall cache key,
        cache <> STATIC_CACHE \/ ~ In key (static_keys h) ->
        entry w' cache key = entry w cache key) /\
    (forall a, In a STATIC_ASSETS ->
        entry w' STATIC_CACHE (request_url h a) =
        match pass_refreshed h w a with
        | Some n => Some n
        | None => entry w STATIC_CACHE (request_url h a)
        end).
Proof.
  unfold pass_trace, pass_refreshed.
  destruct (open_fails h STATIC_CACHE) eqn:Hopen.
  - rewrite (checkForUpdates_open_fails h w Hopen). eexists. split; [reflexivity|].
    repeat split; intros; apply entry_registry; reflexivity.
  - destruct (checkForUpdates_closed h w Hopen) as (w' & Heq & Htr & Hframe & Hstatic).
    exists w'. repeat split; assumption.
Qed.

Lemma In_updatedAssets h w a :
  In a (updatedAssets_of h w) <->
  In a STATIC_ASSETS /\ is_Some (pass_refreshed h w a).
Proof.
  rewrite updatedAssets_of_closed. unfold pass_refreshed, is_refreshed.
  destruct (open_fails h STATIC_CACHE); cbv iota.
  - split; [intros Hin; destruct Hin|intros [_ Hs]; destruct Hs as [n Hn]; discriminate].
  - rewrite filter_In.
    destruct (refreshed h (entry w STATIC_CACHE (request_url h a)) a) as [n|];
      split; intros [Ha Hr]; split; eauto; try discriminate.
    destruct Hr; discriminate.
Qed.

Lemma refreshed_Some h cached a n :
  refreshed h cached a = Some n <->
  network h (request_url h a) = Some n /\ needs_update n cached = true /\
  put_fails h STATIC_CACHE (request_url h a) = false.
Proof.
  unfold refreshed. destruct (network h (request_url h a)) as [n'|].
  - destruct (needs_update n' cached) eqn:Hn;
      destruct (put_fails h STATIC_CACHE (request_url h a)) eqn:Hp; cbn [andb negb].
    + split; [discriminate|]. intros (_ & _ & Hf). discriminate.
    + split; [intros [= ->]; auto|]. intros (Hnet & _). exact Hnet.
    + split; [discriminate|]. intros ([= ->] & Hneed & _). congruence.
    + split; [discriminate|]. intros ([= ->] & Hneed & _). congruence.
  - split; [discriminate|]. intros (Hnet & _). discriminate.
Qed.

Lemma needs_update_true n cached :
  needs_update n cached = true <->
  cached = None \/
  exists c, cached = Some c /\ headers_get n "etag" <> headers_get c "etag".
Proof.
  unfold needs_update. destruct cached as [c|].
  - rewrite negb_true_iff, bool_decide_eq_false. split.
    + intros Hne. right. exists c. auto.
    + intros [Hn|(c' & [= <-] & Hne)]; [discriminate|exact Hne].
  - split; auto.
Qed.

Lemma NoDup_map_inj {A B} (f : A -> B) (l : list A) a b :
  List.NoDup (map f l) -> In a l -> In b l -> f a = f b -> a = b.
Proof.
  induction l as [|x l IH]; intros Hnd Ha Hb Hf; [destruct Ha|].
  cbn [map] in Hnd. inversion Hnd as [|? ? Hnotin Hnd']; subst.
  destruct Ha as [->|Ha], Hb as [->|Hb]; auto.
  - exfalso. apply Hnotin. rewrite Hf. apply in_map. exact Hb.
  - exfalso. apply Hnotin. rewrite <- Hf. apply in_map. exact Ha.
Qed.

Lemma asset_events_put h cached a cache key r :
  In (CachePut cache key r) (asset_events h cached a) <->
  cache = STATIC_CACHE /\ key = request_url h a /\
  exists n, network h (request_url h a) = Some n /\ r = clone n /\
            needs_update n cached = true.
Proof.
  unfold asset_events. cbn [In]. split.
  - intros [Hin|Hin]; [discriminate|].
    destruct (network h (request_url h a)) as [n|].
    + destruct (needs_update n cached) eqn:Hneed; [|destruct Hin].
      destruct Hin as [[= <- <- <-]|Hin]; [eauto 6|].
      destruct (put_fails h STATIC_CACHE (request_url h a)); cbn in Hin;
        intuition discriminate.
    + cbn in Hin. intuition discriminate.
  - intros (-> & -> & n & -> & -> & ->). right. left. reflexivity.
Qed.

Lemma asset_events_no_post h cached a : List.filter is_post (asset_events h cached a) = [].
Proof.
  unfold asset_events. cbn [List.filter is_post].
  destruct (network h (request_url h a)) as [n|]; [|reflexivity].
  destruct (needs_update n cached); [|reflexivity]. cbn [List.filter is_post].
  destruct (put_fails h STATIC_CACHE (request_url h a)); reflexivity.
Qed.

Lemma flat_map_no_post {A} (f : A -> list Event) (l : list A) :
  (forall x, List.filter is_post (f x) = []) -> List.filter is_post (flat_map f l) = [].
Proof.
  intros Hf. induction l as [|x l IH]; cbn [flat_map]; [reflexivity|].
  rewrite List.filter_app, Hf, IH. reflexivity.
Qed.

Lemma broadcast_events_posts h updated :
  List.filter is_post (broadcast_events h updated) =
  match updated with
  | [] => []
  | _ :: _ => map (fun c => PostMessage c (ASSETS_UPDATED updated)) (clients h)
  end.
Proof.
  unfold broadcast_events. destruct updated as [|a updated]; [reflexivity|].
  cbn [List.filter is_post]. induction (clients h) as [|c cs IH]; [reflexivity|].
  cbn [map List.filter is_post]. rewrite IH. reflexivity.
Qed.

Lemma pass_trace_posts h w :
  List.filter is_post (pass_trace h w) =
  match updatedAssets_of h w with
  | [] => []
  | _ :: _ =>
      map (fun c => PostMessage c (ASSETS_UPDATED (updatedAssets_of h w))) (clients h)
  end.
Proof.
  unfold pass_trace. destruct (open_fails h STATIC_CACHE) eqn:Hopen.
  - rewrite updatedAssets_of_closed, Hopen. reflexivity.
  - rewrite List.filter_app, broadcast_events_posts.
    rewrite flat_map_no_post by (intros a; apply asset_events_no_post). reflexivity.
Qed.

(** The writes of a pass: one for each first-party asset whose fetch
    succeeded and whose copy needed an update. *)
Lemma pass_trace_put h w cache key r :
  In (CachePut cache key r) (pass_trace h w) <->
  open_fails h STATIC_CACHE = false /\ cache = STATIC_CACHE /\
  exists a n, In a STATIC_ASSETS /\ key = request_url h a /\
              network h key = Some n /\ r = clone n /\
              needs_update n (entry w STATIC_CACHE key) = true.
Proof.
  unfold pass_trace. destruct (open_fails h STATIC_CACHE).
  - split; [cbn; intuition discriminate|intros [? _]; discriminate].
  - rewrite in_app_iff, in_flat_map. split.
    + intros [(a & Ha & Hin)|Hin].
      * apply asset_events_put in Hin as (-> & -> & n & Hnet & -> & Hneed). eauto 10.
      * unfold broadcast_events in Hin. destruct (updatedAssets_of h w); [destruct Hin|].
        destruct Hin as [Hin|Hin]; [discriminate|].
        apply in_map_iff in Hin as (c & Hc & _). discriminate.
    + intros (_ & -> & a & n & Ha & -> & Hnet & -> & Hneed).
      left. exists a. split; [exact Ha|]. apply asset_events_put. eauto 6.
Qed.

(** C2 (as stated) fails: the start page is cached without an etag and the
    network copy has none either, yet the pass neither overwrites the entry
    nor records the asset. *)
Lemma absent_tokens_counterexample : ~ absent_token_forces_refresh.
Proof.
  intros Hclaim.
  destruct (Hclaim quiet_host installed_world "/"
              (plain_response 200 basic None "fresh")
              (plain_response 200 basic None "stale")) as [Hin _];
    try reflexivity.
  - left. reflexivity.
  - left. reflexivity.
  - vm_compute in Hin. intuition discriminate.
Qed.

(** C2 (as the code has it). For a first-party asset whose fetch succeeds
    and whose store is accepted, the pass overwrites the cached entry and
    records the asset as updated exactly when there is no cached copy or
    the etags of the network copy and of the cached copy differ, an absent
    etag being equal only to an absent etag: two copies without a token are
    equivalent and nothing is refreshed, a token missing on one side only
    forces the refresh.  An asset that is not recorded keeps its entry. *)
Theorem refresh_iff_no_copy_or_tokens_differ h w asset n :
  open_fails h STATIC_CACHE = false ->
  put_fails h STATIC_CACHE (request_url h asset) = false ->
  In asset STATIC_ASSETS ->
  network h (request_url h asset) = Some n ->
  (In asset (updatedAssets_of h w) <->
   entry w STATIC_CACHE (request_url h asset) = None \/
   exists c, entry w STATIC_CACHE (request_url h asset) = Some c /\
             headers_get n "etag" <> headers_get c "etag") /\
  (In asset (updatedAssets_of h w) ->
   entry (snd (checkForUpdates h w)) STATIC_CACHE (request_url h asset) = Some (clone n)) /\
  (~ In asset (updatedAssets_of h w) ->
   entry (snd (checkForUpdates h w)) STATIC_CACHE (request_url h asset) =
   entry w STATIC_CACHE (request_url h asset)) /\
  (forall c, entry w STATIC_CACHE (request_url h asset) = Some c ->
   headers_get n "etag" = None -> headers_get c "etag" = None ->
   ~ In asset (updatedAssets_of h w)) /\
  (forall c, entry w STATIC_CACHE (request_url h asset) = Some c ->
   (headers_get n "etag" = None <-> headers_get c "etag" <> None) ->
   In asset (updatedAssets_of h w)).
Proof.
  intros Hopen Hput Ha Hnet.
  assert (Hiff : In asset (updatedAssets_of h w) <->
                 needs_update n (entry w STATIC_CACHE (request_url h asset)) = true).
  { rewrite In_updatedAssets. unfold pass_refreshed. rewrite Hopen. split.
    - intros [_ [n' Hn']]. apply refreshed_Some in Hn' as (Hnet' & Hneed & _). congruence.
    - intros Hneed. split; [exact Ha|]. exists n. apply refreshed_Some. auto. }
  destruct (checkForUpdates_spec h w) as (w' & Heq & _ & _ & Hstatic).
  rewrite Heq. cbn [snd]. specialize (Hstatic asset Ha).
  unfold pass_refreshed in Hstatic. rewrite Hopen in Hstatic.
  split; [rewrite Hiff; apply needs_update_true|]. split; [|split; [|split]].
  - intros Hin. apply Hiff in Hin. rewrite Hstatic.
    assert (Hr : refreshed h (entry w STATIC_CACHE (request_url h asset)) asset = Some n)
      by (apply refreshed_Some; auto).
    rewrite Hr. reflexivity.
  - intros Hnot. rewrite Hstatic.
    destruct (refreshed h (entry w STATIC_CACHE (request_url h asset)) asset) as [n'|] eqn:Hr;
      [|reflexivity].
    exfalso. apply Hnot, Hiff. apply refreshed_Some in Hr as (Hnet' & Hneed & _). congruence.
  - intros c Hc Hn0 Hc0 Hin. apply Hiff, needs_update_true in Hin.
    destruct Hin as [Hnone|(c' & Hc' & Hne)]; congruence.
  - intros c Hc Hone. apply Hiff, needs_update_true. right. exists c. split; [exact Hc|].
    intros Heq'. destruct (headers_get n "etag") as [t|] eqn:Ht.
    + assert (Hsome : headers_get c "etag" <> None) by congruence.
      apply Hone in Hsome. discriminate.
    + destruct Hone as [Hone _]. apply Hone; congruence.
Qed.

Lemma refresh_iff_no_copy_or_tokens_differ_witness :
  ~ In "/" (updatedAssets_of quiet_host installed_world) /\
  entry (snd (checkForUpdates quiet_host installed_world)) STATIC_CACHE
    "https://logogen.example/" = Some (plain_response 200 basic None "stale").
Proof.
  destruct (refresh_iff_no_copy_or_tokens_differ quiet_host installed_world "/"
              (plain_response 200 basic None "fresh"))
    as (_ & _ & Hkeep & Hboth & _); try reflexivity.
  - left. reflexivity.
  - assert (Hnot : ~ In "/" (updatedAssets_of quiet_host installed_world)).
    { apply (Hboth (plain_response 200 basic None "stale")); reflexivity. }
    split; [exact Hnot|]. exact (Hkeep Hnot).
Defined.

(** C7. A pass always completes, and the messages it posts are these: none
    when no asset was updated; otherwise one ASSETS_UPDATED message to each
    connected client, each carrying the whole list of updated assets (so a
    client never gets one message per asset).  The list names each asset
    once, and an asset is on it exactly when it is a first-party asset whose
    entry the pass overwrote (a put that the store accepted). *)
Theorem reconcile_broadcasts_once h w :
  exists w' evs,
    checkForUpdates h w = (Fulfilled tt, w') /\
    trace w' = (trace w ++ evs)%list /\
    List.filter is_post evs =
      match updatedAssets_of h w with
      | [] => []
      | _ :: _ =>
          map (fun c => PostMessage c (ASSETS_UPDATED (updatedAssets_of h w))) (clients h)
      end /\
    List.NoDup (updatedAssets_of h w) /\
    (forall a,
        In a (updatedAssets_of h w) <->
        In a STATIC_ASSETS /\
        put_fails h STATIC_CACHE (request_url h a) = false /\
        exists r, In (CachePut STATIC_CACHE (request_url h a) r) evs) /\
    (forall a, In a (updatedAssets_of h w) ->
        entry w' STATIC_CACHE (request_url h a) = network h (request_url h a)).
Proof.
  destruct (checkForUpdates_spec h w) as (w' & Heq & Htr & _ & Hstatic).
  exists w', (pass_trace h w). split; [exact Heq|]. split; [exact Htr|].
  split; [apply pass_trace_posts|]. split; [|split].
  - rewrite updatedAssets_of_closed. destruct (open_fails h STATIC_CACHE); [constructor|].
    apply List.NoDup_filter. apply (List.NoDup_map_inv (request_url h)).
    apply static_keys_NoDup.
  - intros a. rewrite In_updatedAssets. unfold pass_refreshed. split.
    + intros [Ha [n Hn]]. destruct (open_fails h STATIC_CACHE) eqn:Hopen; [discriminate|].
      apply refreshed_Some in Hn as (Hnet & Hneed & Hput).
      repeat split; auto. exists (clone n). apply pass_trace_put. eauto 10.
    + intros (Ha & Hput & r & Hin).
      apply pass_trace_put in Hin as (Hopen & _ & b & n & Hb & Hkey & Hnet & -> & Hneed).
      rewrite Hopen. split; [exact Ha|]. exists n. apply refreshed_Some. auto.
  - intros a Hin. apply In_updatedAssets in Hin as [Ha [n Hn]].
    rewrite (Hstatic a Ha), Hn. unfold pass_refreshed in Hn.
    destruct (open_fails h STATIC_CACHE); [discriminate|].
    apply refreshed_Some in Hn as (Hnet & _). congruence.
Qed.

(** The scenario of the spec on the real manifest: only /index.html has a
    new etag, so exactly one message is posted and it lists that asset. *)
Example reconcile_single_change :
  List.filter is_post (trace (snd (checkForUpdates tagged_host tagged_world))) =
  [PostMessage 7 (ASSETS_UPDATED ["/index.html"])].
Proof. vm_compute. reflexivity. Qed.

(** C10. A pass changes no entry outside the static cache and, inside it,
    no entry whose key is not the key of a first-party asset; every write
    it issues goes to the static cache under such a key.  In particular the
    entries of the third-party resources stay as they are, and no
    third-party resource is ever listed in a broadcast.  The list of
    updated assets depends only on the entries of the first-party keys. *)
Theorem reconcile_touches_first_party_only h w :
  exists w' evs,
    checkForUpdates h w = (Fulfilled tt, w') /\
    trace w' = (trace w ++ evs)%list /\
    (forall cache key,
        cache <> STATIC_CACHE \/ ~ In key (static_keys h) ->
        entry w' cache key = entry w cache key) /\
    (forall cache key r,
        In (CachePut cache key r) evs -> cache = STATIC_CACHE /\ In key (static_keys h)) /\
    (forall e, In e EXTERNAL_RESOURCES ->
        entry w' STATIC_CACHE (request_url h e) = entry w STATIC_CACHE (request_url h e)) /\
    (forall c assets,
        In (PostMessage c (ASSETS_UPDATED assets)) evs ->
        forall a, In a assets -> In a STATIC_ASSETS /\ ~ In a EXTERNAL_RESOURCES) /\
    (forall w2,
        (forall key, In key (static_keys h) ->
                     entry w2 STATIC_CACHE key = entry w STATIC_CACHE key) ->
        updatedAssets_of h w2 = updatedAssets_of h w).
Proof.
  destruct (checkForUpdates_spec h w) as (w' & Heq & Htr & Hframe & _).
  exists w', (pass_trace h w). split; [exact Heq|]. split; [exact Htr|].
  split; [exact Hframe|]. split; [|split; [|split]].
  - intros cache key r Hin.
    apply pass_trace_put in Hin as (_ & -> & a & n & Ha & -> & _).
    split; [reflexivity|]. apply in_map. exact Ha.
  - intros e He. apply Hframe. right. apply external_not_static. exact He.
  - intros c assets Hin a Ha.
    assert (Hpost : In (PostMessage c (ASSETS_UPDATED assets))
                      (List.filter is_post (pass_trace h w)))
      by (apply filter_In; split; [exact Hin|reflexivity]).
    rewrite pass_trace_posts in Hpost.
    destruct (updatedAssets_of h w) as [|a0 upd] eqn:Hu; [destruct Hpost|].
    apply in_map_iff in Hpost as (c' & [= _ <-] & _).
    rewrite <- Hu in Ha. apply In_updatedAssets in Ha as [Ha _].
    split; [exact Ha|]. intros He. exact (external_not_first_party a He Ha).
  - intros w2 Hagree. rewrite !updatedAssets_of_closed.
    destruct (open_fails h STATIC_CACHE); [reflexivity|].
    apply filter_ext_in. intros a Ha. rewrite Hagree; [reflexivity|].
    apply in_map. exact Ha.
Qed.

(** * Further properties of the handlers *)

(** ** The router: bypass, network-only requests and failures *)

Lemma prefix_append p : forall s,
  String.prefix p s = true -> exists rest, s = p +:+ rest.
Proof.
  induction p as [|a p IH]; intros s Hp.
  - exists s. reflexivity.
  - destruct s as [|b s]; [discriminate|]. cbn in Hp.
    destruct (ascii_dec a b) as [->|]; [|discriminate].
    destruct (IH s Hp) as [rest ->]. exists rest. reflexivity.
Qed.

(** The test of line 70 is subsumed by the test of line 71. *)
Lemma chrome_extension_includes s :
  startsWith s "chrome-extension://" = true -> includes s "extension" = true.
Proof.
  intros Hp. apply prefix_append in Hp as [rest ->]. reflexivity.
Qed.

Lemma skipped_spec req :
  skipped req = negb (String.eqb (method req) "GET") || includes (url req) "extension".
Proof.
  unfold skipped.
  destruct (startsWith (url req) "chrome-extension://") eqn:Hp.
  - rewrite (chrome_extension_includes _ Hp), !orb_true_r. reflexivity.
  - rewrite orb_false_r. reflexivity.
Qed.

(** The listener returns without answering exactly when the request is not
    a GET or its URL contains the word extension anywhere (the
    chrome-extension:// test adds nothing); the world is then untouched,
    whether or not the request is cached. *)
Theorem router_bypass_iff h req w :
  (fst (on_fetch h req w) = PassThrough <->
   method req <> "GET" \/ includes (url req) "extension" = true) /\
  (fst (on_fetch h req w) = PassThrough -> snd (on_fetch h req w) = w).
Proof.
  assert (Hskip : skipped req = true <->
                  method req <> "GET" \/ includes (url req) "extension" = true).
  { rewrite skipped_spec, orb_true_iff, negb_true_iff, String.eqb_neq. reflexivity. }
  unfold on_fetch. destruct (skipped req).
  - split; [|reflexivity]. split; [intros _; apply Hskip; reflexivity|reflexivity].
  - assert (Hresp : forall p, fst (respondWith p w) <> PassThrough).
    { intros p. unfold respondWith. destruct (p w). discriminate. }
    destruct (is_api_request req); split;
      try (intros Hp; exfalso; exact (Hresp _ Hp)).
    + split; [intros Hp; exfalso; exact (Hresp _ Hp)|].
      intros Hc. apply Hskip in Hc. discriminate.
    + split; [intros Hp; exfalso; exact (Hresp _ Hp)|].
      intros Hc. apply Hskip in Hc. discriminate.
Qed.

(** A request to the API host that is not bypassed is answered by the
    network alone, even when a cache holds a matching entry: one fetch is
    issued, its outcome is the answer (a failure is passed on without a log
    line) and the registry is not touched. *)
Theorem router_api_network_only h req w :
  skipped req = false -> is_api_request req = true ->
  on_fetch h req w =
  (RespondWith match network h (url req) with
               | Some r => Fulfilled r
               | None => Rejected "TypeError: Failed to fetch"
               end,
   {| registry := registry w; trace := (trace w ++ [NetFetch (url req)])%list |}).
Proof.
  intros Hskip Hapi. unfold on_fetch. rewrite Hskip, Hapi.
  unfold respondWith, fetch, then_, emit.
  destruct (network h (url req)); reflexivity.
Qed.

Lemma router_api_network_only_witness :
  on_fetch quiet_host (get_request "https://api.openai.com/v1/images")
    (fresh [(DYNAMIC_CACHE,
             {[ "https://api.openai.com/v1/images" := plain_response 200 cors None "stale" ]})]) =
  (RespondWith (Fulfilled (plain_response 200 cors None "fresh")),
   {| registry := [(DYNAMIC_CACHE,
                    {[ "https://api.openai.com/v1/images" :=
                         plain_response 200 cors None "stale" ]})];
      trace := [NetFetch "https://api.openai.com/v1/images"] |}).
Proof.
  apply (router_api_network_only quiet_host
           (get_request "https://api.openai.com/v1/images")); reflexivity.
Defined.

(** On a miss whose fetch fails the caller gets the rejection of the fetch
    with its own reason; the handler logs one warning and leaves the
    registry alone (there is no offline fallback). *)
Theorem router_network_failure_propagates h req w :
  skipped req = false -> is_api_request req = false ->
  first_match (url req) (registry w) = None ->
  network h (url req) = None ->
  on_fetch h req w =
  (RespondWith (Rejected "TypeError: Failed to fetch"),
   {| registry := registry w;
      trace := (trace w ++ [NetFetch (url req);
                            Console WARN "Service Worker: Fetch failed"])%list |}).
Proof.
  intros Hskip Hapi Hmiss Hnet. rewrite on_fetch_miss by assumption. rewrite Hnet.
  unfold console, emit. cbn [snd registry trace]. rewrite <- app_assoc. reflexivity.
Qed.

Lemma router_network_failure_propagates_witness :
  on_fetch offline_index_host (get_request "https://logogen.example/index.html") (fresh []) =
  (RespondWith (Rejected "TypeError: Failed to fetch"),
   {| registry := [];
      trace := [NetFetch "https://logogen.example/index.html";
                Console WARN "Service Worker: Fetch failed"] |}).
Proof.
  apply (router_network_failure_propagates offline_index_host
           (get_request "https://logogen.example/index.html") (fresh [])); reflexivity.
Defined.

(** ** The router: the write path in closed form *)

Lemma on_network_response_fulfilled h req nr w :
  fst (on_network_response h req nr w) = Fulfilled nr.
Proof.
  unfold on_network_response. destruct (_ || _); reflexivity.
Qed.

(** The world a valid response leaves behind. *)
Lemma on_network_response_world h req nr w :
  status nr = 200 -> type nr = basic ->
  snd (on_network_response h req nr w) =
  if open_fails h DYNAMIC_CACHE
  then {| registry := registry w;
          trace := (trace w ++ [Console WARN "Service Worker: Cache put error"])%list |}
  else
    if isCacheable h req
    then
      {| registry :=
           if put_fails h DYNAMIC_CACHE (url req)
           then registry (snd (caches_open h DYNAMIC_CACHE w))
           else registry_update DYNAMIC_CACHE (fun c => <[url req := nr]> c)
                  (registry (snd (caches_open h DYNAMIC_CACHE w)));
         trace := (trace w ++ [CachePut DYNAMIC_CACHE (url req) nr])%list |}
    else snd (caches_open h DYNAMIC_CACHE w).
Proof.
  intros Hs Ht. unfold on_network_response. rewrite Hs, Ht. cbn [Z.eqb negb orb].
  change (ResponseType_eqb basic basic) with true. cbn [negb orb Pos.eqb].
  unfold then_, detached, resolve, catch_, caches_open.
  destruct (open_fails h DYNAMIC_CACHE); [reflexivity|].
  destruct (isCacheable h req).
  - unfold cache_put, then_, emit, clone.
    destruct (registry_lookup DYNAMIC_CACHE (registry w));
      destruct (put_fails h DYNAMIC_CACHE (url req)); reflexivity.
  - destruct (registry_lookup DYNAMIC_CACHE (registry w)); reflexivity.
Qed.

Lemma caches_open_registry h name w :
  open_fails h name = false ->
  registry (snd (caches_open h name w)) =
  match registry_lookup name (registry w) with
  | Some _ => registry w
  | None => (registry w ++ [(name, ∅)])%list
  end.
Proof.
  intros Hopen. unfold caches_open. rewrite Hopen.
  destruct (registry_lookup name (registry w)); reflexivity.
Qed.

Lemma registry_update_names name f reg :
  map fst (registry_update name f reg) = map fst reg.
Proof.
  induction reg as [|[n c] reg IH]; cbn; [reflexivity|].
  destruct (String.eqb n name); cbn; [reflexivity|]. rewrite IH. reflexivity.
Qed.

Lemma first_match_snoc u reg name c :
  first_match u (reg ++ [(name, c)]) =
  match first_match u reg with
  | Some r => Some r
  | None => c !! u
  end.
Proof.
  induction reg as [|[n c0] reg IH]; cbn.
  - destruct (c !! u); reflexivity.
  - destruct (c0 !! u); [reflexivity|exact IH].
Qed.

(** An update of one cache, seen through [caches.match], when no cache held
    the key before. *)
Lemma first_match_update u reg name f c :
  first_match u reg = None -> registry_lookup name reg = Some c ->
  first_match u (registry_update name f reg) = f c !! u.
Proof.
  induction reg as [|[n c0] reg IH]; cbn; [discriminate|].
  destruct (c0 !! u) eqn:Hc0; [discriminate|]. intros Hm.
  destruct (String.eqb n name).
  - intros [= ->]. cbn. destruct (f c !! u); [reflexivity|exact Hm].
  - intros Hl. cbn. rewrite Hc0. apply IH; assumption.
Qed.

Lemma first_match_opened h name u w :
  open_fails h name = false ->
  first_match u (registry w) = None ->
  first_match u (registry (snd (caches_open h name w))) = None /\
  is_Some (registry_lookup name (registry (snd (caches_open h name w)))).
Proof.
  intros Hopen Hm. rewrite caches_open_registry by exact Hopen.
  destruct (registry_lookup name (registry w)) eqn:Hl.
  - rewrite Hl. eauto.
  - rewrite first_match_snoc, Hm, registry_lookup_snoc, String.eqb_refl by exact Hl.
    split; [apply lookup_empty|eauto].
Qed.

(** Failures of the store never reach the caller.  On a miss the answer is
    the network response on every host.  When the dynamic cache cannot be
    opened one warning is logged; when the put is refused nothing is logged
    at all (its promise is dropped); in both cases no entry changes. *)
Theorem router_store_failure_is_swallowed h req w nr :
  skipped req = false -> is_api_request req = false ->
  first_match (url req) (registry w) = None ->
  network h (url req) = Some nr ->
  fst (on_fetch h req w) = RespondWith (Fulfilled nr) /\
  (status nr = 200 -> type nr = basic -> open_fails h DYNAMIC_CACHE = true ->
   snd (on_fetch h req w) =
   {| registry := registry w;
      trace := (trace w ++ [NetFetch (url req);
                            Console WARN "Service Worker: Cache put error"])%list |}) /\
  (status nr = 200 -> type nr = basic -> open_fails h DYNAMIC_CACHE = false ->
   isCacheable h req = true -> put_fails h DYNAMIC_CACHE (url req) = true ->
   (forall cache key, entry (snd (on_fetch h req w)) cache key = entry w cache key) /\
   trace (snd (on_fetch h req w)) =
     (trace w ++ [NetFetch (url req); CachePut DYNAMIC_CACHE (url req) nr])%list).
Proof.
  intros Hskip Hapi Hmiss Hnet. rewrite on_fetch_miss by assumption. rewrite Hnet.
  pose proof (on_network_response_fulfilled h req nr (snd (emit (NetFetch (url req)) w)))
    as Hful.
  destruct (on_network_response h req nr (snd (emit (NetFetch (url req)) w)))
    as [r w'] eqn:Hr.
  cbn [fst snd] in *. subst r. split; [reflexivity|]. split.
  - intros Hs Ht Hopen.
    pose proof (on_network_response_world h req nr (snd (emit (NetFetch (url req)) w)) Hs Ht)
      as Hw.
    rewrite Hr, Hopen in Hw. cbn [snd emit registry trace] in Hw. rewrite Hw.
    rewrite <- app_assoc. reflexivity.
  - intros Hs Ht Hopen Hc Hput.
    pose proof (on_network_response_world h req nr (snd (emit (NetFetch (url req)) w)) Hs Ht)
      as Hw.
    rewrite Hr, Hopen, Hc, Hput in Hw. cbn [snd] in Hw. rewrite Hw. split.
    + intros cache key.
      destruct (caches_open_spec h DYNAMIC_CACHE (snd (emit (NetFetch (url req)) w)) Hopen)
        as (w1 & Heq & _ & _ & Hent).
      rewrite Heq. cbn [snd]. rewrite <- (entry_registry w1) by reflexivity.
      rewrite Hent. apply entry_registry. reflexivity.
    + cbn [trace emit snd]. rewrite <- app_assoc. reflexivity.
Qed.

Lemma router_store_failure_is_swallowed_witness :
  fst (on_fetch
         {| location_origin := app_origin; url_origin := origin_by_prefix;
            network := network quiet_host;
            open_fails := fun _ => true; put_fails := fun _ _ => true;
            delete_fails := fun _ => false; clients := [] |}
         (get_request "https://logogen.example/app.js") (fresh [])) =
  RespondWith (Fulfilled (plain_response 200 basic None "fresh")).
Proof.
  apply (router_store_failure_is_swallowed
           {| location_origin := app_origin; url_origin := origin_by_prefix;
              network := network quiet_host;
              open_fails := fun _ => true; put_fails := fun _ _ => true;
              delete_fails := fun _ => false; clients := [] |}
           (get_request "https://logogen.example/app.js") (fresh [])
           (plain_response 200 basic None "fresh")); reflexivity.
Defined.

(** Round trip of the dynamic cache: once a miss has been stored, the same
    request is a hit.  It is answered with the very response of the first
    call on any host (so also offline), without a fetch and without a
    change of the world. *)
Theorem router_second_request_is_a_hit h h2 req w nr :
  skipped req = false -> is_api_request req = false ->
  first_match (url req) (registry w) = None ->
  network h (url req) = Some nr ->
  status nr = 200 -> type nr = basic ->
  isCacheable h req = true ->
  open_fails h DYNAMIC_CACHE = false ->
  put_fails h DYNAMIC_CACHE (url req) = false ->
  fst (on_fetch h req w) = RespondWith (Fulfilled nr) /\
  on_fetch h2 req (snd (on_fetch h req w)) =
    (RespondWith (Fulfilled nr), snd (on_fetch h req w)).
Proof.
  intros Hskip Hapi Hmiss Hnet Hs Ht Hc Hopen Hput.
  rewrite on_fetch_miss by assumption. rewrite Hnet.
  pose proof (on_network_response_fulfilled h req nr (snd (emit (NetFetch (url req)) w)))
    as Hful.
  pose proof (on_network_response_world h req nr (snd (emit (NetFetch (url req)) w)) Hs Ht)
    as Hw.
  destruct (on_network_response h req nr (snd (emit (NetFetch (url req)) w)))
    as [r w'] eqn:Hr.
  cbn [fst snd] in *. subst r. split; [reflexivity|].
  apply on_fetch_hit; try assumption.
  rewrite Hw, Hopen, Hc, Hput. cbn [registry].
  destruct (first_match_opened h DYNAMIC_CACHE (url req)
              (snd (emit (NetFetch (url req)) w)) Hopen Hmiss) as [Hm1 [c Hc1]].
  rewrite (first_match_update _ _ _ _ c Hm1 Hc1). apply lookup_insert_eq.
Qed.

Lemma router_second_request_is_a_hit_witness :
  fst (on_fetch quiet_host (get_request "https://logogen.example/app.js") (fresh [])) =
    RespondWith (Fulfilled (plain_response 200 basic None "fresh")) /\
  on_fetch offline_index_host (get_request "https://logogen.example/app.js")
    (snd (on_fetch quiet_host (get_request "https://logogen.example/app.js") (fresh []))) =
    (RespondWith (Fulfilled (plain_response 200 basic None "fresh")),
     snd (on_fetch quiet_host (get_request "https://logogen.example/app.js") (fresh []))).
Proof.
  apply (router_second_request_is_a_hit quiet_host offline_index_host
           (get_request "https://logogen.example/app.js") (fresh [])
           (plain_response 200 basic None "fresh")); reflexivity.
Defined.

(** The router never removes or renames a cache: after any request the
    registry lists the same caches in the same order, with at most
    dynamic-v1 added at the end when it did not exist. *)
Theorem router_keeps_caches h req w :
  map fst (registry (snd (on_fetch h req w))) = map fst (registry w) \/
  (registry_lookup DYNAMIC_CACHE (registry w) = None /\
   map fst (registry (snd (on_fetch h req w))) =
     (map fst (registry w) ++ [DYNAMIC_CACHE])%list).
Proof.
  destruct (skipped req) eqn:Hskip.
  { left. unfold on_fetch. rewrite Hskip. reflexivity. }
  destruct (is_api_request req) eqn:Hapi.
  { left. unfold on_fetch. rewrite Hskip, Hapi.
    unfold respondWith, fetch, then_, emit.
    destruct (network h (url req)); reflexivity. }
  destruct (first_match (url req) (registry w)) as [cached|] eqn:Hm.
  { left. rewrite (on_fetch_hit h req w cached) by assumption. reflexivity. }
  rewrite on_fetch_miss by assumption.
  destruct (network h (url req)) as [nr|] eqn:Hnet; [|left; reflexivity].
  pose proof (on_network_response_fulfilled h req nr (snd (emit (NetFetch (url req)) w)))
    as Hful.
  destruct (on_network_response h req nr (snd (emit (NetFetch (url req)) w)))
    as [r w'] eqn:Hr.
  cbn [fst snd] in *.
  assert (Hw' : w' = snd (on_network_response h req nr (snd (emit (NetFetch (url req)) w))))
    by (rewrite Hr; reflexivity).
  destruct (Z.eq_dec (status nr) 200) as [Hs|Hs];
    [|rewrite on_network_response_invalid in Hw' by (left; exact Hs);
      left; rewrite Hw'; reflexivity].
  destruct (type nr) eqn:Ht;
    try (rewrite on_network_response_invalid in Hw' by (right; congruence);
         left; rewrite Hw'; reflexivity).
  rewrite (on_network_response_world h req nr _ Hs Ht) in Hw'.
  destruct (open_fails h DYNAMIC_CACHE) eqn:Hopen; [left; rewrite Hw'; reflexivity|].
  assert (Hnames : map fst (registry (snd (caches_open h DYNAMIC_CACHE
                                             (snd (emit (NetFetch (url req)) w))))) =
                   map fst (registry w) \/
                   (registry_lookup DYNAMIC_CACHE (registry w) = None /\
                    map fst (registry (snd (caches_open h DYNAMIC_CACHE
                                              (snd (emit (NetFetch (url req)) w))))) =
                    (map fst (registry w) ++ [DYNAMIC_CACHE])%list)).
  { rewrite caches_open_registry by exact Hopen. cbn [emit snd registry].
    destruct (registry_lookup DYNAMIC_CACHE (registry w)); [left; reflexivity|].
    right. split; [reflexivity|]. rewrite map_app. reflexivity. }
  rewrite Hw'. destruct (isCacheable h req); [|exact Hnames].
  cbn [registry]. destruct (put_fails h DYNAMIC_CACHE (url req)); [exact Hnames|].
  rewrite registry_update_names. exact Hnames.
Qed.

(** ** The install phase *)

Lemma forEach_emit {A} (f : A -> Event) (l : list A) : forall w,
  forEach l (fun x => emit (f x)) w =
  (Fulfilled tt, {| registry := registry w; trace := (trace w ++ map f l)%list |}).
Proof.
  induction l as [|x l IH]; intros w; cbn [forEach map].
  - unfold resolve. rewrite app_nil_r. destruct w; reflexivity.
  - unfold then_, emit. rewrite IH. cbn [registry trace].
    rewrite <- app_assoc. reflexivity.
Qed.

(** The three tests of [cache.addAll], asset by asset. *)
Lemma fetch_all_installable h l :
  match fetch_all h (map (request_url h) l) with
  | Some entries =>
      forallb (fun e => ok (snd e)) entries
      && negb (existsb (fun e => put_fails h STATIC_CACHE (fst e)) entries)
  | None => false
  end = forallb (installable h) l.
Proof.
  induction l as [|a l IH]; [reflexivity|].
  cbn [map fetch_all forallb]. unfold installable at 1.
  destruct (network h (request_url h a)) as [r|]; [|reflexivity].
  rewrite <- IH. destruct (fetch_all h (map (request_url h) l)) as [entries|].
  - cbn [forallb existsb fst snd].
    destruct (ok r), (put_fails h STATIC_CACHE (request_url h a)),
      (forallb (fun e => ok (snd e)) entries); reflexivity.
  - rewrite andb_false_r. reflexivity.
Qed.

Lemma fetch_all_entries h us : forall entries,
  fetch_all h us = Some entries ->
  map fst entries = us /\ forall e, In e entries -> network h (fst e) = Some (snd e).
Proof.
  induction us as [|u us IH]; intros entries; cbn [fetch_all].
  - intros [= <-]. split; [reflexivity|intros e []].
  - destruct (network h u) as [r|] eqn:Hnet; [|discriminate].
    destruct (fetch_all h us) as [l|]; [|discriminate].
    intros [= <-]. destruct (IH l eq_refl) as [Hfst Hall]. split.
    + cbn. rewrite Hfst. reflexivity.
    + intros e [<-|He]; [exact Hnet|apply Hall, He].
Qed.

Lemma fold_insert_notin (entries : list (string * Response)) : forall (c : gmap string Response) u,
  ~ In u (map fst entries) ->
  fold_left (fun c e => <[fst e := snd e]> c) entries c !! u = c !! u.
Proof.
  induction entries as [|e entries IH]; intros c u Hu; cbn [fold_left]; [reflexivity|].
  cbn [map] in Hu. rewrite IH by (intros Hin; apply Hu; right; exact Hin).
  apply lookup_insert_ne. intros Heq. apply Hu. left. exact Heq.
Qed.

Lemma fold_insert_in h (entries : list (string * Response)) :
  forall (c : gmap string Response) u,
  (forall e, In e entries -> network h (fst e) = Some (snd e)) ->
  In u (map fst entries) ->
  fold_left (fun c e => <[fst e := snd e]> c) entries c !! u = network h u.
Proof.
  induction entries as [|e entries IH]; intros c u Hall Hu; [destruct Hu|].
  cbn [fold_left].
  destruct (in_dec string_dec u (map fst entries)) as [Hin|Hnotin].
  - apply IH; [intros e' He'; apply Hall; right; exact He'|exact Hin].
  - rewrite fold_insert_notin by exact Hnotin.
    destruct Hu as [<-|Hin]; [|contradiction].
    rewrite lookup_insert_eq. symmetry. apply Hall. left. reflexivity.
Qed.

Lemma cache_addAll_accepts h l w :
  forallb (installable h) l = true ->
  exists entries,
    fetch_all h (map (request_url h) l) = Some entries /\
    cache_addAll h STATIC_CACHE l w =
    (Fulfilled tt,
     {| registry := registry_update STATIC_CACHE
                      (fun c => fold_left (fun c e => <[fst e := snd e]> c) entries c)
                      (registry w);
        trace := (trace w ++ map NetFetch (map (request_url h) l))%list |}).
Proof.
  intros Hok. pose proof (fetch_all_installable h l) as Hcond. rewrite Hok in Hcond.
  unfold cache_addAll, then_. rewrite forEach_emit.
  destruct (fetch_all h (map (request_url h) l)) as [entries|]; [|discriminate].
  apply andb_prop in Hcond as [Hall Hput]. apply negb_true_iff in Hput.
  exists entries. split; [reflexivity|]. rewrite Hall, Hput. reflexivity.
Qed.

Lemma cache_addAll_refuses h l w :
  forallb (installable h) l = false ->
  exists reason,
    cache_addAll h STATIC_CACHE l w =
    (Rejected reason,
     {| registry := registry w;
        trace := (trace w ++ map NetFetch (map (request_url h) l))%list |}).
Proof.
  intros Hbad. pose proof (fetch_all_installable h l) as Hcond. rewrite Hbad in Hcond.
  unfold cache_addAll, then_. rewrite forEach_emit.
  destruct (fetch_all h (map (request_url h) l)) as [entries|]; [|eexists; reflexivity].
  destruct (forallb (fun e => ok (snd e)) entries); cbn [negb andb] in *.
  - apply negb_false_iff in Hcond. rewrite Hcond. eexists. reflexivity.
  - eexists. reflexivity.
Qed.

(** A successful install: the promise is fulfilled, [skipWaiting] is called
    last, every pre-cached asset (first-party and third-party) is stored in
    static-v1 with the response the network gave for it, and nothing else
    changes. *)
Theorem install_success_stores_manifest h w :
  install_succeeds h = true ->
  exists w',
    on_install h w = (Fulfilled tt, w') /\
    trace w' =
      (trace w ++ [Console LOG "Service Worker: Installing...";
                   Console LOG "Service Worker: Caching static assets"]
         ++ map NetFetch (map (request_url h) precached)
         ++ [Console LOG "Service Worker: Install completed"; SkipWaiting])%list /\
    (forall a, In a precached ->
       entry w' STATIC_CACHE (request_url h a) = network h (request_url h a)) /\
    (forall cache key,
       cache <> STATIC_CACHE \/ ~ In key (map (request_url h) precached) ->
       entry w' cache key = entry w cache key).
Proof.
  unfold install_succeeds. intros Hok. apply andb_prop in Hok as [Hopen Hall].
  apply negb_true_iff in Hopen.
  unfold on_install. unfold then_ at 1, console at 1, emit at 1.
  set (w0 := {| registry := registry w;
                trace := (trace w ++ [Console LOG "Service Worker: Installing..."])%list |}).
  destruct (caches_open_spec h STATIC_CACHE w0 Hopen) as (w1 & Heq & Htr & [c1 Hc1] & Hent).
  unfold catch_. unfold then_ at 1. unfold then_ at 1. rewrite Heq.
  unfold then_ at 1, console at 1, emit at 1.
  match goal with |- context [cache_addAll h STATIC_CACHE _ ?w2] =>
    destruct (cache_addAll_accepts h precached w2 Hall) as (entries & Hfetch & Hadd) end.
  fold precached. rewrite Hadd.
  unfold then_, console, skipWaiting, emit. cbn [registry trace].
  destruct (fetch_all_entries h _ entries Hfetch) as [Hfst Hnet].
  eexists. split; [reflexivity|]. cbn [registry trace]. split; [|split].
  - rewrite Htr. unfold w0. cbn [trace]. rewrite <- !app_assoc. reflexivity.
  - intros a Ha. unfold entry. cbn [registry].
    rewrite registry_lookup_update, String.eqb_refl, Hc1.
    cbn [fmap option_fmap option_map].
    apply fold_insert_in; [exact Hnet|]. rewrite Hfst. apply in_map. exact Ha.
  - intros cache key Hout.
    rewrite <- (entry_registry w0 w) by reflexivity. rewrite <- Hent.
    unfold entry. cbn [registry]. rewrite registry_lookup_update.
    destruct (String.eqb_spec cache STATIC_CACHE) as [->|Hne]; [|reflexivity].
    rewrite Hc1. cbn [fmap option_fmap option_map].
    destruct Hout as [Hout|Hout]; [congruence|].
    apply fold_insert_notin. rewrite Hfst. exact Hout.
Qed.

Lemma install_success_stores_manifest_witness :
  exists w',
    on_install quiet_host (fresh []) = (Fulfilled tt, w') /\
    last (trace w') = Some SkipWaiting /\
    entry w' STATIC_CACHE "https://logogen.example/index.html" =
      Some (plain_response 200 basic None "fresh").
Proof.
  destruct (install_success_stores_manifest quiet_host (fresh []))
    as (w' & Heq & Htr & Hstored & _); [reflexivity|].
  exists w'. split; [exact Heq|]. split.
  - rewrite Htr. reflexivity.
  - apply (Hstored "/index.html"). cbn. auto.
Defined.

(** A failed install is all-or-nothing: when the static cache cannot be
    opened, or one asset cannot be fetched, comes back with a non-ok status
    or is refused by the cache, no entry of any cache changes and
    [skipWaiting] is not called; the handler's last act is to log the
    failure, and its promise is fulfilled all the same. *)
Theorem install_failure_stores_nothing h w :
  install_succeeds h = false ->
  exists w' evs,
    on_install h w = (Fulfilled tt, w') /\
    trace w' = (trace w ++ evs)%list /\
    (forall cache key, entry w' cache key = entry w cache key) /\
    ~ In SkipWaiting evs /\
    (forall e, In e evs -> is_put e = false) /\
    last evs = Some (Console ERROR "Service Worker: Installation failed").
Proof.
  unfold install_succeeds. intros Hbad.
  unfold on_install. unfold then_ at 1, console at 1, emit at 1.
  set (w0 := {| registry := registry w;
                trace := (trace w ++ [Console LOG "Service Worker: Installing..."])%list |}).
  unfold catch_. unfold then_ at 1. unfold then_ at 1.
  destruct (open_fails h STATIC_CACHE) eqn:Hopen.
  - unfold caches_open. rewrite Hopen. unfold console, emit. cbn [registry trace].
    eexists _, [Console LOG "Service Worker: Installing...";
                Console ERROR "Service Worker: Installation failed"].
    split; [reflexivity|]. unfold w0. cbn [trace].
    split; [rewrite <- app_assoc; reflexivity|].
    split; [intros; apply entry_registry; reflexivity|].
    split; [cbn; intuition discriminate|].
    split; [|reflexivity]. intros e [<-|[<-|[]]]; reflexivity.
  - cbn [negb andb] in Hbad.
    destruct (caches_open_spec h STATIC_CACHE w0 Hopen) as (w1 & Heq & Htr & _ & Hent).
    rewrite Heq. unfold then_ at 1, console at 1, emit at 1.
    match goal with |- context [cache_addAll h STATIC_CACHE _ ?w2] =>
      destruct (cache_addAll_refuses h precached w2 Hbad) as (reason & Hadd) end.
    fold precached. rewrite Hadd. unfold console, emit. cbn [registry trace].
    eexists _, ([Console LOG "Service Worker: Installing...";
                 Console LOG "Service Worker: Caching static assets"]
                  ++ map NetFetch (map (request_url h) precached)
                  ++ [Console ERROR "Service Worker: Installation failed"])%list.
    split; [reflexivity|]. cbn [trace]. split; [|split; [|split; [|split]]].
    + rewrite Htr. unfold w0. cbn [trace]. rewrite <- !app_assoc. reflexivity.
    + intros cache key. rewrite <- (entry_registry w0 w) by reflexivity.
      rewrite <- Hent. apply entry_registry. reflexivity.
    + intros Hin. cbn [app In] in Hin. destruct Hin as [Hin|[Hin|Hin]]; try discriminate.
      apply in_app_or in Hin as [Hin|[Hin|[]]]; [|discriminate].
      apply in_map_iff in Hin as (u & Hu & _). discriminate.
    + intros e Hin. cbn [app In] in Hin. destruct Hin as [<-|[<-|Hin]]; try reflexivity.
      apply in_app_or in Hin as [Hin|[<-|[]]]; [|reflexivity].
      apply in_map_iff in Hin as (u & <- & _). reflexivity.
    + rewrite !app_assoc. apply last_snoc.
Qed.

Lemma install_failure_stores_nothing_witness :
  exists w' evs,
    on_install offline_index_host installed_world = (Fulfilled tt, w') /\
    trace w' = (trace installed_world ++ evs)%list /\
    (forall cache key, entry w' cache key = entry installed_world cache key) /\
    ~ In SkipWaiting evs /\
    (forall e, In e evs -> is_put e = false) /\
    last evs = Some (Console ERROR "Service Worker: Installation failed").
Proof.
  apply (install_failure_stores_nothing offline_index_host installed_world). reflexivity.
Defined.

(** The registry a successful install leaves behind. *)
Lemma on_install_success_registry h w :
  install_succeeds h = true ->
  exists entries,
    fetch_all h (map (request_url h) precached) = Some entries /\
    registry (snd (on_install h w)) =
    registry_update STATIC_CACHE
      (fun c => fold_left (fun c e => <[fst e := snd e]> c) entries c)
      (registry (snd (caches_open h STATIC_CACHE w))).
Proof.
  unfold install_succeeds. intros Hok. apply andb_prop in Hok as [Hopen Hall].
  apply negb_true_iff in Hopen.
  assert (Hreg : forall w0, registry w0 = registry w ->
            registry (snd (caches_open h STATIC_CACHE w0)) =
            registry (snd (caches_open h STATIC_CACHE w))).
  { intros w0 Hw0. rewrite !caches_open_registry, Hw0 by exact Hopen. reflexivity. }
  unfold on_install. unfold then_ at 1, console at 1, emit at 1.
  set (w0 := {| registry := registry w;
                trace := (trace w ++ [Console LOG "Service Worker: Installing..."])%list |}).
  rewrite <- (Hreg w0 eq_refl).
  destruct (caches_open_spec h STATIC_CACHE w0 Hopen) as (w1 & Heq & _).
  unfold catch_. unfold then_ at 1. unfold then_ at 1. rewrite Heq.
  unfold then_ at 1, console at 1, emit at 1.
  match goal with |- context [cache_addAll h STATIC_CACHE _ ?w2] =>
    destruct (cache_addAll_accepts h precached w2 Hall) as (entries & Hfetch & Hadd) end.
  fold precached. rewrite Hadd.
  unfold then_, console, skipWaiting, emit. cbn [registry trace snd].
  exists entries. split; [exact Hfetch|reflexivity].
Qed.

(** Install, then route: after a successful install a request for a
    pre-cached asset that no older cache holds is answered from static-v1
    with the response fetched at install time, on any host, without a
    fetch. *)
Theorem installed_asset_served_from_cache h h2 w a req :
  install_succeeds h = true ->
  In a precached ->
  url req = request_url h a ->
  skipped req = false -> is_api_request req = false ->
  first_match (url req) (registry w) = None ->
  exists r,
    network h (url req) = Some r /\
    on_fetch h2 req (snd (on_install h w)) =
      (RespondWith (Fulfilled r), snd (on_install h w)).
Proof.
  intros Hok Ha Hurl Hskip Hapi Hmiss.
  destruct (on_install_success_registry h w Hok) as (entries & Hfetch & Hreg).
  destruct (fetch_all_entries h _ entries Hfetch) as [Hfst Hnet].
  unfold install_succeeds in Hok. apply andb_prop in Hok as [Hopen Hall].
  apply negb_true_iff in Hopen.
  destruct (first_match_opened h STATIC_CACHE (url req) w Hopen Hmiss) as [Hm1 [c Hc1]].
  assert (Hfound : first_match (url req) (registry (snd (on_install h w))) =
                   network h (url req)).
  { rewrite Hreg, (first_match_update _ _ _ _ c Hm1 Hc1).
    apply fold_insert_in; [exact Hnet|]. rewrite Hfst, Hurl. apply in_map. exact Ha. }
  rewrite forallb_forall in Hall. specialize (Hall a Ha). unfold installable in Hall.
  rewrite <- Hurl in Hall.
  destruct (network h (url req)) as [r|] eqn:Hr; [|discriminate].
  exists r. split; [reflexivity|]. apply on_fetch_hit; assumption.
Qed.

Lemma installed_asset_served_from_cache_witness :
  exists r,
    network quiet_host "https://logogen.example/manifest.json" = Some r /\
    on_fetch offline_index_host (get_request "https://logogen.example/manifest.json")
      (snd (on_install quiet_host (fresh []))) =
      (RespondWith (Fulfilled r), snd (on_install quiet_host (fresh []))).
Proof.
  apply (installed_asset_served_from_cache quiet_host offline_index_host (fresh [])
           "/manifest.json" (get_request "https://logogen.example/manifest.json"));
    try reflexivity.
  cbn. auto.
Defined.

(** ** The activation phase: frame and repetition *)

Lemma registry_lookup_filter (p : string -> bool) name reg :
  registry_lookup name (List.filter (fun nc => p (fst nc)) reg) =
  if p name then registry_lookup name reg else None.
Proof.
  induction reg as [|[n c] reg IH]; cbn [List.filter registry_lookup fst].
  - destruct (p name); reflexivity.
  - destruct (String.eqb_spec n name) as [->|Hne].
    + destruct (p name) eqn:Hp.
      * cbn [registry_lookup]. rewrite String.eqb_refl. reflexivity.
      * rewrite IH, ?Hp. reflexivity.
    + destruct (p n).
      * cbn [registry_lookup]. destruct (String.eqb_spec n name); [congruence|exact IH].
      * exact IH.
Qed.

(** Activation touches no entry of the two current caches and of the caches
    it fails to delete; a superseded cache whose delete is accepted loses
    every entry.  It fetches nothing and writes nothing. *)
Theorem activate_keeps_current_entries h w :
  exists r w' evs,
    on_activate h w = (r, w') /\
    trace w' = (trace w ++ evs)%list /\
    (forall cache key,
       entry w' cache key =
       if negb (superseded cache) || delete_fails h cache
       then entry w cache key else None) /\
    (forall e, In e evs -> is_fetch e = false /\ is_put e = false).
Proof.
  destruct (on_activate_closed_form h w) as (r & w' & Heq & Hreg & Htr & _).
  eexists r, w', _. split; [exact Heq|]. split; [exact Htr|]. split.
  - intros cache key. unfold entry. rewrite Hreg.
    rewrite (registry_lookup_filter
               (fun n => negb (superseded n) || delete_fails h n) cache (registry w)).
    destruct (negb (superseded cache) || delete_fails h cache); reflexivity.
  - intros e Hin. destruct Hin as [<-|Hin]; [split; reflexivity|]. cbn [app] in Hin.
    apply in_app_or in Hin as [Hin|Hin].
    + apply sweep_events_inv in Hin as [->|[n ->]]; split; reflexivity.
    + destruct (deletes_succeed h _); [|destruct Hin].
      destruct Hin as [<-|[<-|[]]]; split; reflexivity.
Qed.

Lemma filter_superseded_survivors h (reg : list (string * gmap string Response)) :
  List.filter superseded
    (map fst (List.filter (fun nc => negb (superseded (fst nc)) || delete_fails h (fst nc)) reg)) =
  List.filter (delete_refused h) (map fst reg).
Proof.
  unfold delete_refused.
  induction reg as [|[n c] reg IH]; cbn [List.filter map fst]; [reflexivity|].
  destruct (superseded n) eqn:Hs, (delete_fails h n) eqn:Hd;
    cbn [negb orb andb map List.filter fst]; rewrite ?Hs, IH; reflexivity.
Qed.

(** Activating again retries exactly the deletes that were refused the
    first time and changes nothing else: the registry stays as the first
    activation left it. *)
Theorem activate_again_retries_refused_deletes h w :
  exists r1 w1 r2 w2 evs2,
    on_activate h w = (r1, w1) /\
    on_activate h w1 = (r2, w2) /\
    registry w2 = registry w1 /\
    trace w2 = (trace w1 ++ evs2)%list /\
    List.filter is_delete evs2 =
      map CacheDelete (List.filter (delete_refused h) (map fst (registry w))) /\
    r2 = r1.
Proof.
  destruct (on_activate_closed_form h w) as (r1 & w1 & Heq1 & Hreg1 & _ & Hr1).
  destruct (on_activate_closed_form h w1) as (r2 & w2 & Heq2 & Hreg2 & Htr2 & Hr2).
  assert (Hsame : deletes_succeed h (map fst (registry w1)) =
                  deletes_succeed h (map fst (registry w))).
  { rewrite Hreg1. unfold deletes_succeed, delete_refused.
    generalize (registry w). intros reg.
    induction reg as [|[n c] reg IH]; cbn [List.filter map fst forallb]; [reflexivity|].
    destruct (superseded n) eqn:Hs, (delete_fails h n) eqn:Hd;
      cbn [negb orb andb map forallb fst]; rewrite ?Hs, ?Hd; cbn [negb andb];
      try exact IH.
    reflexivity. }
  eexists r1, w1, r2, w2, _. split; [exact Heq1|]. split; [exact Heq2|].
  split; [|split; [exact Htr2|split]].
  - rewrite Hreg2, Hreg1, filter_filter. apply filter_ext. intros nc.
    destruct (negb (superseded (fst nc)) || delete_fails h (fst nc)); reflexivity.
  - cbn [app List.filter is_delete]. rewrite List.filter_app, sweep_events_deletes.
    rewrite Hreg1, filter_superseded_survivors.
    match goal with |- context [if ?b then _ else _] => destruct b end;
      cbn [List.filter is_delete]; rewrite app_nil_r; reflexivity.
  - rewrite Hr2, Hr1, Hsame. reflexivity.
Qed.

(** ** The reconciler: repetition, traffic and independence *)

Lemma filter_none {A} (f : A -> bool) (l : list A) :
  (forall x, In x l -> f x = false) -> List.filter f l = [].
Proof.
  induction l as [|x l IH]; intros Hall; cbn [List.filter]; [reflexivity|].
  rewrite Hall by (left; reflexivity). apply IH. intros y Hy. apply Hall. right. exact Hy.
Qed.

Lemma needs_update_same n : needs_update n (Some n) = false.
Proof. unfold needs_update. rewrite bool_decide_eq_true_2; reflexivity. Qed.

(** A second pass on the same host finds nothing to update, whatever the
    first pass did (refreshed, skipped or failed): its list of updated
    assets is empty and it posts no message. *)
Theorem reconcile_twice_updates_nothing h w :
  updatedAssets_of h (snd (checkForUpdates h w)) = [] /\
  exists w2 evs2,
    checkForUpdates h (snd (checkForUpdates h w)) = (Fulfilled tt, w2) /\
    trace w2 = (trace (snd (checkForUpdates h w)) ++ evs2)%list /\
    List.filter is_post evs2 = [].
Proof.
  destruct (checkForUpdates_spec h w) as (w1 & Heq & _ & _ & Hstatic).
  rewrite Heq. cbn [snd].
  assert (Hnone : updatedAssets_of h w1 = []).
  { rewrite updatedAssets_of_closed.
    destruct (open_fails h STATIC_CACHE) eqn:Hopen; [reflexivity|].
    apply filter_none. intros a Ha. specialize (Hstatic a Ha).
    unfold pass_refreshed in Hstatic. rewrite Hopen in Hstatic.
    unfold is_refreshed.
    destruct (refreshed h (entry w STATIC_CACHE (request_url h a)) a) as [n|] eqn:Hr.
    - apply refreshed_Some in Hr as (Hnet & _ & _). rewrite Hstatic.
      unfold refreshed. rewrite Hnet, needs_update_same. reflexivity.
    - rewrite Hstatic, Hr. reflexivity. }
  split; [exact Hnone|].
  destruct (checkForUpdates_spec h w1) as (w2 & Heq2 & Htr2 & _).
  exists w2, (pass_trace h w1). split; [exact Heq2|]. split; [exact Htr2|].
  rewrite pass_trace_posts, Hnone. reflexivity.
Qed.

Lemma filter_flat_map {A B} (p : B -> bool) (f : A -> list B) (l : list A) :
  List.filter p (flat_map f l) = flat_map (fun x => List.filter p (f x)) l.
Proof.
  induction l as [|x l IH]; cbn [flat_map]; [reflexivity|].
  rewrite List.filter_app, IH. reflexivity.
Qed.

Lemma flat_map_singleton {A B} (g : A -> B) (l : list A) :
  flat_map (fun x => [g x]) l = map g l.
Proof. induction l as [|x l IH]; cbn; [reflexivity|]. rewrite IH. reflexivity. Qed.

Lemma flat_map_guarded {A B} (b : A -> bool) (g : A -> B) (l : list A) :
  flat_map (fun x => if b x then [g x] else []) l = map g (List.filter b l).
Proof.
  induction l as [|x l IH]; cbn [flat_map List.filter]; [reflexivity|].
  destruct (b x); cbn; rewrite IH; reflexivity.
Qed.

Lemma asset_events_fetch h cached a :
  List.filter is_fetch (asset_events h cached a) = [NetFetch (request_url h a)].
Proof.
  unfold asset_events. cbn [List.filter is_fetch]. f_equal.
  destruct (network h (request_url h a)) as [n|]; [|reflexivity].
  destruct (needs_update n cached); [|reflexivity]. cbn [List.filter is_fetch].
  destruct (put_fails h STATIC_CACHE (request_url h a)); reflexivity.
Qed.

Lemma broadcast_events_quiet h updated (p : Event -> bool) :
  p (Console LOG "Service Worker: Updated assets") = false ->
  (forall c m, p (PostMessage c m) = false) ->
  List.filter p (broadcast_events h updated) = [].
Proof.
  intros Hlog Hpost. unfold broadcast_events. destruct updated; [reflexivity|].
  cbn [List.filter]. rewrite Hlog. apply filter_none.
  intros e He. apply in_map_iff in He as (c & <- & _). apply Hpost.
Qed.

(** A pass that can open the static cache fetches every first-party asset
    exactly once, in manifest order, whether or not the cached copy is
    current and whatever happens to the other assets; a pass that cannot
    open the cache fetches nothing. *)
Theorem reconcile_fetches_every_asset h w :
  exists w' evs,
    checkForUpdates h w = (Fulfilled tt, w') /\
    trace w' = (trace w ++ evs)%list /\
    List.filter is_fetch evs =
      if open_fails h STATIC_CACHE then [] else map NetFetch (static_keys h).
Proof.
  destruct (checkForUpdates_spec h w) as (w' & Heq & Htr & _).
  exists w', (pass_trace h w). split; [exact Heq|]. split; [exact Htr|].
  unfold pass_trace. destruct (open_fails h STATIC_CACHE); [reflexivity|].
  rewrite List.filter_app, filter_flat_map.
  rewrite broadcast_events_quiet by reflexivity. rewrite app_nil_r.
  rewrite (flat_map_ext_on _ (fun a => [NetFetch (request_url h a)]))
    by (intros a _; apply asset_events_fetch).
  rewrite flat_map_singleton. unfold static_keys. rewrite map_map. reflexivity.
Qed.

Lemma asset_events_warning h w a :
  List.filter is_warning (asset_events h (entry w STATIC_CACHE (request_url h a)) a) =
  if update_fails h w a
  then [Console WARN ("Service Worker: Failed to update " +:+ a)] else [].
Proof.
  unfold asset_events, update_fails. cbn [List.filter is_warning].
  destruct (network h (request_url h a)) as [n|]; [|reflexivity].
  destruct (needs_update n _); [|reflexivity]. cbn [List.filter is_warning andb].
  destruct (put_fails h STATIC_CACHE (request_url h a)); reflexivity.
Qed.

(** Failures inside a pass are logged and skipped: the pass is fulfilled,
    and its warnings are, in manifest order, one for each first-party asset
    whose fetch fails or whose new copy the cache refuses, each naming its
    asset; no other warning is logged. *)
Theorem reconcile_warns_once_per_failure h w :
  open_fails h STATIC_CACHE = false ->
  exists w' evs,
    checkForUpdates h w = (Fulfilled tt, w') /\
    trace w' = (trace w ++ evs)%list /\
    List.filter is_warning evs =
      map (fun a => Console WARN ("Service Worker: Failed to update " +:+ a))
        (List.filter (update_fails h w) STATIC_ASSETS).
Proof.
  intros Hopen.
  destruct (checkForUpdates_spec h w) as (w' & Heq & Htr & _).
  exists w', (pass_trace h w). split; [exact Heq|]. split; [exact Htr|].
  unfold pass_trace. rewrite Hopen.
  rewrite List.filter_app, filter_flat_map.
  rewrite broadcast_events_quiet by reflexivity. rewrite app_nil_r.
  rewrite (flat_map_ext_on _
             (fun a => if update_fails h w a
                       then [Console WARN ("Service Worker: Failed to update " +:+ a)]
                       else []))
    by (intros a _; apply asset_events_warning).
  apply (flat_map_guarded (update_fails h w)
           (fun a => Console WARN ("Service Worker: Failed to update " +:+ a))).
Qed.

Lemma reconcile_warns_once_per_failure_witness :
  exists w' evs,
    checkForUpdates offline_index_host installed_world = (Fulfilled tt, w') /\
    trace w' = (trace installed_world ++ evs)%list /\
    List.filter is_warning evs =
      [Console WARN "Service Worker: Failed to update /index.html"].
Proof.
  apply (reconcile_warns_once_per_failure offline_index_host installed_world). reflexivity.
Defined.

(** Whether an asset is refreshed depends on that asset alone: two hosts
    that agree on the worker's origin, on opening the static cache and on
    the fetch and the store of this asset update it alike, however they
    treat the other assets. *)
Theorem reconcile_assets_are_independent h1 h2 w a :
  location_origin h1 = location_origin h2 ->
  open_fails h1 STATIC_CACHE = open_fails h2 STATIC_CACHE ->
  network h1 (request_url h1 a) = network h2 (request_url h1 a) ->
  put_fails h1 STATIC_CACHE (request_url h1 a) = put_fails h2 STATIC_CACHE (request_url h1 a) ->
  (In a (updatedAssets_of h1 w) <-> In a (updatedAssets_of h2 w)).
Proof.
  intros Horigin Hopen Hnet Hput.
  assert (Hurl : request_url h2 a = request_url h1 a)
    by (unfold request_url; rewrite Horigin; reflexivity).
  rewrite !In_updatedAssets. unfold pass_refreshed, refreshed.
  rewrite Hurl, <- Hopen, <- Hnet, <- Hput. reflexivity.
Qed.

Lemma reconcile_assets_are_independent_witness :
  In "/manifest.json" (updatedAssets_of quiet_host installed_world) <->
  In "/manifest.json" (updatedAssets_of offline_index_host installed_world).
Proof.
  apply (reconcile_assets_are_independent quiet_host offline_index_host installed_world
           "/manifest.json"); reflexivity.
Defined.

(** ** Background sync *)

(** A background sync that goes through, in closed form. *)
Lemma doBackgroundSync_success h w r :
  open_fails h STATIC_CACHE = false ->
  network h (request_url h "/") = Some r ->
  put_fails h STATIC_CACHE (request_url h "/") = false ->
  doBackgroundSync h w =
  (Fulfilled tt,
   {| registry := registry_update STATIC_CACHE (fun c => <[request_url h "/" := r]> c)
                    (registry (snd (caches_open h STATIC_CACHE w)));
      trace := (trace w ++
                [Console LOG "Service Worker: Performing background sync";
                 NetFetch (request_url h "/");
                 CachePut STATIC_CACHE (request_url h "/") r;
                 Console LOG "Service Worker: Background sync completed"])%list |}).
Proof.
  intros Hopen Hnet Hput.
  unfold doBackgroundSync, catch_. unfold then_ at 1, console at 1, emit at 1.
  unfold then_ at 1, caches_open. rewrite Hopen. cbn [registry trace snd].
  destruct (registry_lookup STATIC_CACHE (registry w));
    unfold then_, fetch, then_, emit; rewrite Hnet;
    unfold resolve, cache_put, then_, emit; cbn [registry trace set_registry];
    rewrite Hput; unfold console, emit; cbn [registry trace set_registry];
    rewrite <- !app_assoc; reflexivity.
Qed.

(** A background sync that fails at some step, in closed form. *)
Lemma doBackgroundSync_failure h w :
  sync_succeeds h = false ->
  exists evs,
    doBackgroundSync h w =
    (Fulfilled tt,
     {| registry := if open_fails h STATIC_CACHE then registry w
                    else registry (snd (caches_open h STATIC_CACHE w));
        trace := (trace w ++ evs)%list |}) /\
    last evs = Some (Console ERROR "Service Worker: Background sync failed") /\
    (forall e, In e evs -> is_post e = false).
Proof.
  unfold sync_succeeds. intros Hbad.
  unfold doBackgroundSync, catch_. unfold then_ at 1, console at 1, emit at 1.
  unfold then_ at 1, caches_open.
  destruct (open_fails h STATIC_CACHE) eqn:Hopen.
  - unfold console, emit. cbn [registry trace].
    exists [Console LOG "Service Worker: Performing background sync";
            Console ERROR "Service Worker: Background sync failed"].
    split; [rewrite <- app_assoc; reflexivity|]. split; [reflexivity|].
    intros e [<-|[<-|[]]]; reflexivity.
  - cbn [negb andb] in Hbad. cbn [registry trace snd].
    destruct (network h (request_url h "/")) as [r|] eqn:Hnet.
    + apply negb_false_iff in Hbad.
      exists [Console LOG "Service Worker: Performing background sync";
              NetFetch (request_url h "/");
              CachePut STATIC_CACHE (request_url h "/") r;
              Console ERROR "Service Worker: Background sync failed"].
      split; [|split; [reflexivity|intros e [<-|[<-|[<-|[<-|[]]]]]; reflexivity]].
      destruct (registry_lookup STATIC_CACHE (registry w));
        unfold then_, fetch, then_, emit; rewrite Hnet;
        unfold resolve, cache_put, then_, emit; cbn [registry trace set_registry];
        rewrite Hbad; unfold console, emit; cbn [registry trace set_registry snd];
        rewrite <- !app_assoc; reflexivity.
    + exists [Console LOG "Service Worker: Performing background sync";
              NetFetch (request_url h "/");
              Console ERROR "Service Worker: Background sync failed"].
      split; [|split; [reflexivity|intros e [<-|[<-|[<-|[]]]]; reflexivity]].
      destruct (registry_lookup STATIC_CACHE (registry w));
        unfold then_, fetch, then_, emit; rewrite Hnet;
        unfold reject, console, emit; cbn [registry trace set_registry snd];
        rewrite <- !app_assoc; reflexivity.
Qed.

(** A background sync that goes through replaces the cached start page by
    whatever the network answered, without looking at its status or its
    etag and without comparing it with the cached copy; no other entry
    changes and no client is told. *)
Theorem background_sync_overwrites_start_page h w r :
  open_fails h STATIC_CACHE = false ->
  network h (request_url h "/") = Some r ->
  put_fails h STATIC_CACHE (request_url h "/") = false ->
  exists w' evs,
    doBackgroundSync h w = (Fulfilled tt, w') /\
    trace w' = (trace w ++ evs)%list /\
    entry w' STATIC_CACHE (request_url h "/") = Some r /\
    (forall cache key,
       cache <> STATIC_CACHE \/ key <> request_url h "/" ->
       entry w' cache key = entry w cache key) /\
    List.filter is_fetch evs = [NetFetch (request_url h "/")] /\
    List.filter is_post evs = [].
Proof.
  intros Hopen Hnet Hput.
  rewrite (doBackgroundSync_success h w r Hopen Hnet Hput).
  destruct (caches_open_spec h STATIC_CACHE w Hopen) as (w1 & Heq & _ & Hsome & Hent).
  rewrite Heq. cbn [snd].
  assert (Hput' : forall cache key,
    entry {| registry := registry_update STATIC_CACHE
                           (fun c => <[request_url h "/" := r]> c) (registry w1);
             trace := (trace w ++
                [Console LOG "Service Worker: Performing background sync";
                 NetFetch (request_url h "/");
                 CachePut STATIC_CACHE (request_url h "/") r;
                 Console LOG "Service Worker: Background sync completed"])%list |}
          cache key =
    if bool_decide (cache = STATIC_CACHE /\ key = request_url h "/") then Some r
    else entry w cache key).
  { intros cache key. rewrite <- Hent.
    rewrite <- (entry_after_put w1 STATIC_CACHE (request_url h "/") r cache key Hsome).
    apply entry_registry. reflexivity. }
  eexists _, _. split; [reflexivity|]. split; [reflexivity|].
  split; [|split; [|split; reflexivity]].
  - rewrite Hput', bool_decide_eq_true_2; auto.
  - intros cache key Hout. rewrite Hput', bool_decide_eq_false_2; [reflexivity|].
    intros [-> ->]. destruct Hout; congruence.
Qed.

Lemma background_sync_overwrites_start_page_witness :
  exists w' evs,
    doBackgroundSync not_found_host installed_world = (Fulfilled tt, w') /\
    trace w' = (trace installed_world ++ evs)%list /\
    entry w' STATIC_CACHE (request_url not_found_host "/") =
      Some (plain_response 404 basic None "not found") /\
    (forall cache key,
       cache <> STATIC_CACHE \/ key <> request_url not_found_host "/" ->
       entry w' cache key = entry installed_world cache key) /\
    List.filter is_fetch evs = [NetFetch (request_url not_found_host "/")] /\
    List.filter is_post evs = [].
Proof.
  apply (background_sync_overwrites_start_page not_found_host installed_world
           (plain_response 404 basic None "not found")); reflexivity.
Defined.

(** A sync event never fails: the promise handed to [waitUntil] is
    fulfilled for every tag and on every host, so the host sees no sync to
    retry.  For a tag other than background-sync, and for a background sync
    in which a step fails, no entry of any cache changes and no client is
    told; the failed sync ends by logging the error. *)
Theorem sync_failure_is_harmless h tag w :
  tag <> "background-sync" \/ sync_succeeds h = false ->
  exists w' evs,
    on_sync h tag w = (Fulfilled tt, w') /\
    trace w' = (trace w ++ evs)%list /\
    (forall cache key, entry w' cache key = entry w cache key) /\
    (forall e, In e evs -> is_post e = false) /\
    (tag = "background-sync" ->
     last evs = Some (Console ERROR "Service Worker: Background sync failed")).
Proof.
  intros Hwhy. unfold on_sync. unfold then_ at 1, console at 1, emit at 1.
  destruct (String.eqb_spec tag "background-sync") as [->|Hne].
  - destruct Hwhy as [Hwhy|Hbad]; [congruence|].
    match goal with |- context [doBackgroundSync h ?w0] =>
      destruct (doBackgroundSync_failure h w0 Hbad) as (evs & Heq & Hlast & Hquiet) end.
    rewrite Heq. cbn [registry trace].
    eexists _, (Console LOG "Service Worker: Background sync" :: evs).
    split; [reflexivity|]. cbn [trace]. split; [rewrite <- app_assoc; reflexivity|].
    split; [|split].
    + intros cache key.
      destruct (open_fails h STATIC_CACHE) eqn:Hopen;
        [apply entry_registry; reflexivity|].
      match goal with |- context [caches_open h STATIC_CACHE ?w0] =>
        destruct (caches_open_spec h STATIC_CACHE w0 Hopen) as (w1 & Heq1 & _ & _ & Hent) end.
      rewrite Heq1. cbn [snd]. rewrite <- (entry_registry w1) by reflexivity.
      rewrite Hent. apply entry_registry. reflexivity.
    + intros e [<-|He]; [reflexivity|apply Hquiet, He].
    + intros _. destruct evs as [|e evs]; [discriminate|]. exact Hlast.
  - unfold resolve. eexists _, [Console LOG "Service Worker: Background sync"].
    split; [reflexivity|]. split; [reflexivity|].
    split; [intros; apply entry_registry; reflexivity|].
    split; [intros e [<-|[]]; reflexivity|]. intros Heq. congruence.
Qed.

Lemma sync_failure_is_harmless_witness :
  exists w' evs,
    on_sync {| location_origin := app_origin; url_origin := origin_by_prefix;
               network := fun _ => None;
               open_fails := fun _ => false; put_fails := fun _ _ => false;
               delete_fails := fun _ => false; clients := [1%nat] |}
      "background-sync" installed_world = (Fulfilled tt, w') /\
    trace w' = (trace installed_world ++ evs)%list /\
    (forall cache key, entry w' cache key = entry installed_world cache key) /\
    (forall e, In e evs -> is_post e = false) /\
    ("background-sync" = "background-sync" ->
     last evs = Some (Console ERROR "Service Worker: Background sync failed")).
Proof.
  apply sync_failure_is_harmless. right. reflexivity.
Defined.

(** Background sync, then reconciliation: once a sync has stored the start
    page, a pass on the same host does not list it as updated; a new start
    page that arrives through background sync is never announced to the
    clients. *)
Theorem background_sync_hides_start_page_update h w :
  sync_succeeds h = true ->
  ~ In "/" (updatedAssets_of h (snd (doBackgroundSync h w))).
Proof.
  unfold sync_succeeds. intros Hok. apply andb_prop in Hok as [Hopen Hrest].
  apply negb_true_iff in Hopen.
  destruct (network h (request_url h "/")) as [r|] eqn:Hnet; [|discriminate].
  apply negb_true_iff in Hrest.
  rewrite (doBackgroundSync_success h w r Hopen Hnet Hrest). cbn [snd].
  destruct (caches_open_spec h STATIC_CACHE w Hopen) as (w1 & Heq & _ & Hsome & _).
  rewrite Heq. cbn [snd].
  intros Hin. apply In_updatedAssets in Hin as [_ [n Hn]].
  unfold pass_refreshed in Hn. rewrite Hopen in Hn.
  apply refreshed_Some in Hn as (Hnet' & Hneed & _).
  assert (n = r) as -> by congruence.
  match type of Hneed with context [entry ?w2 _ _] =>
    assert (Hentry : entry w2 STATIC_CACHE (request_url h "/") = Some r) end.
  { match goal with |- entry ?w2 _ _ = _ =>
      rewrite (entry_registry w2
                 (set_registry (registry_update STATIC_CACHE
                                  (fun c => <[request_url h "/" := r]> c) (registry w1)) w1))
        by reflexivity end.
    rewrite (entry_after_put w1 STATIC_CACHE (request_url h "/") r _ _ Hsome).
    rewrite bool_decide_eq_true_2; auto. }
  rewrite Hentry, needs_update_same in Hneed. discriminate.
Qed.

Lemma background_sync_hides_start_page_update_witness :
  ~ In "/" (updatedAssets_of tagged_host (snd (doBackgroundSync tagged_host (fresh [])))).
Proof.
  apply (background_sync_hides_start_page_update tagged_host (fresh [])). reflexivity.
Defined.

(** A periodic sync never fails and, whatever its tag, changes no entry
    other than those of the first-party assets in static-v1; with a tag
    other than update-check it does nothing at all. *)
Theorem periodicsync_frame h tag w :
  exists w',
    on_periodicsync h tag w = (Fulfilled tt, w') /\
    (forall cache key,
       cache <> STATIC_CACHE \/ ~ In key (static_keys h) ->
       entry w' cache key = entry w cache key) /\
    (tag <> "update-check" -> w' = w).
Proof.
  unfold on_periodicsync. destruct (String.eqb_spec tag "update-check") as [->|Hne].
  - unfold then_ at 1, console at 1, emit at 1.
    match goal with |- context [checkForUpdates h ?w0] =>
      destruct (checkForUpdates_spec h w0) as (w' & Heq & _ & Hframe & _) end.
    rewrite Heq. exists w'. split; [reflexivity|]. split; [|congruence].
    intros cache key Hout. rewrite (Hframe cache key Hout).
    apply entry_registry. reflexivity.
  - exists w. split; [reflexivity|]. split; [reflexivity|]. reflexivity.
Qed.

(** ** The message handler *)

(** What a message does, for every message: the registry is never touched;
    [skipWaiting] is called exactly for a SKIP_WAITING message; a version
    reply is sent exactly for a GET_VERSION message that carries a port,
    and then on its first port; the handler throws exactly for a
    GET_VERSION message without a port; any other message (or one without
    data) is only logged. *)
Theorem message_effects ev w :
  exists r evs,
    on_message ev w =
      (r, {| registry := registry w;
             trace := (trace w ++ Console LOG "Service Worker: Message received" :: evs)%list |}) /\
    evs =
      (if data_type_is ev "SKIP_WAITING" then [SkipWaiting]
       else if data_type_is ev "GET_VERSION"
            then match ports ev with
                 | port :: _ => [PortMessage port {| version := "1.0.0";
                                                     cacheName := CACHE_NAME |}]
                 | [] => []
                 end
            else []) /\
    (is_fulfilled r = false <-> data_type_is ev "GET_VERSION" = true /\ ports ev = []).
Proof.
  destruct ev as [[[t]|] ps]; unfold on_message, data_type_is; cbn [data ports msg_type].
  - destruct (String.eqb_spec t "SKIP_WAITING") as [->|Hskip].
    + cbn [String.eqb Ascii.eqb Bool.eqb].
      unfold then_, console, skipWaiting, emit, resolve. cbn [registry trace].
      eexists _, _. split; [rewrite <- app_assoc; reflexivity|].
      split; [reflexivity|]. cbn. split; [discriminate|intros [? _]; discriminate].
    + destruct (String.eqb_spec t "GET_VERSION") as [->|Hget].
      * destruct ps as [|port rest];
          unfold then_, console, port_postMessage, emit, resolve, reject;
          cbn [registry trace];
          eexists _, _; (split; [rewrite <- ?app_assoc; reflexivity|]);
          (split; [reflexivity|]); cbn.
        -- split; auto.
        -- split; [discriminate|intros [_ ?]; discriminate].
      * unfold then_, console, emit, resolve. cbn [registry trace].
        eexists _, _. split; [reflexivity|]. split; [reflexivity|].
        cbn. split; [discriminate|intros [? _]; discriminate].
  - unfold then_, console, emit, resolve. cbn [registry trace].
    eexists _, _. split; [reflexivity|]. split; [reflexivity|].
    cbn. split; [discriminate|intros [? _]; discriminate].
Qed.

(** ** Push notifications and clicks *)

Lemma or_default_truthy v d : d <> "" -> truthy (or_default v d) = true.
Proof.
  intros Hd. unfold or_default. destruct v as [x|].
  - destruct (truthy x) eqn:Hx; [exact Hx|]. destruct d; [contradiction|reflexivity].
  - destruct d; [contradiction|reflexivity].
Qed.

Lemma truthy_string s : truthy (JString s) = true -> s <> "".
Proof. destruct s; [discriminate|]. intros _. discriminate. Qed.

(** What a push does, for every push event.  Nothing is shown for an event
    without data; the handler throws when the data is not JSON or is null.
    For any other JSON value a notification is shown whose title, body and
    click URL are the payload's fields when these are truthy (whatever
    their type: a truthy non-string is handed on as it is) and the defaults
    otherwise; so none of them is ever a falsy value, and one that is a
    string is never empty.  The actions are always open and close. *)
Theorem push_notification_fields_truthy event_data :
  match on_push event_data with
  | NothingShown => event_data = None
  | PushThrows _ => event_data = Some InvalidJson \/ event_data = Some (Parsed JNull)
  | ShowNotification title options =>
      (exists data,
         event_data = Some (Parsed data) /\ data <> JNull /\
         title = or_default (get_field data "title") "Logo Package Generator" /\
         opt_body options = or_default (get_field data "body") "Logo Package Generator" /\
         opt_data_url options = or_default (get_field data "url") "/" /\
         (forall v, get_field data "title" = Some v -> truthy v = true -> title = v)) /\
      truthy title = true /\
      truthy (opt_body options) = true /\
      truthy (opt_data_url options) = true /\
      (forall s, title = JString s -> s <> "") /\
      (forall s, opt_body options = JString s -> s <> "") /\
      (forall s, opt_data_url options = JString s -> s <> "") /\
      map fst (opt_actions options) = ["open"; "close"]
  end.
Proof.
  assert (Hshown : forall data, data <> JNull ->
    (exists data',
       Some (Parsed data) = Some (Parsed data') /\ data' <> JNull /\
       or_default (get_field data "title") "Logo Package Generator" =
         or_default (get_field data' "title") "Logo Package Generator" /\
       or_default (get_field data "body") "Logo Package Generator" =
         or_default (get_field data' "body") "Logo Package Generator" /\
       or_default (get_field data "url") "/" = or_default (get_field data' "url") "/" /\
       (forall v, get_field data' "title" = Some v -> truthy v = true ->
          or_default (get_field data "title") "Logo Package Generator" = v)) /\
    truthy (or_default (get_field data "title") "Logo Package Generator") = true /\
    truthy (or_default (get_field data "body") "Logo Package Generator") = true /\
    truthy (or_default (get_field data "url") "/") = true /\
    (forall s, or_default (get_field data "title") "Logo Package Generator" = JString s ->
       s <> "") /\
    (forall s, or_default (get_field data "body") "Logo Package Generator" = JString s ->
       s <> "") /\
    (forall s, or_default (get_field data "url") "/" = JString s -> s <> "") /\
    ["open"; "close"] = ["open"; "close"]).
  { intros data Hdata.
    assert (Ht := or_default_truthy (get_field data "title") "Logo Package Generator").
    assert (Hb := or_default_truthy (get_field data "body") "Logo Package Generator").
    assert (Hu := or_default_truthy (get_field data "url") "/").
    split.
    - exists data. repeat split; auto.
      intros v Hv Htruthy. unfold or_default. rewrite Hv, Htruthy. reflexivity.
    - split; [apply Ht; discriminate|]. split; [apply Hb; discriminate|].
      split; [apply Hu; discriminate|].
      split; [intros s Hs; apply truthy_string; rewrite <- Hs; apply Ht; discriminate|].
      split; [intros s Hs; apply truthy_string; rewrite <- Hs; apply Hb; discriminate|].
      split; [intros s Hs; apply truthy_string; rewrite <- Hs; apply Hu; discriminate|].
      reflexivity. }
  destruct event_data as [[|[]]|]; cbn [on_push];
    try (apply Hshown; discriminate); auto.
Qed.

(** A payload whose title is the empty array: the array is truthy, so it is
    what [showNotification] receives as the title. *)
Example push_passes_truthy_array_through :
  on_push (Some (Parsed (JObject [("title", JArray []); ("body", JString "")]))) =
  ShowNotification (JArray [])
    {| opt_body := JString "Logo Package Generator";
       opt_icon := "https://i.postimg.cc/dtq83xGm/logo-512x512.png";
       opt_badge := "https://i.postimg.cc/dtq83xGm/logo-512x512.png";
       opt_vibrate := [100; 50; 100];
       opt_data_url := JString "/";
       opt_actions := [("open", "Open App"); ("close", "Close")] |}.
Proof. reflexivity. Qed.

Lemma first_to_focus_Some clientList c :
  first_to_focus clientList = Some c ->
  In c clientList /\ client_url c = "/" /\ has_focus c = true.
Proof.
  induction clientList as [|x l IH]; cbn [first_to_focus]; [discriminate|].
  destruct (String.eqb (client_url x) "/" && has_focus x) eqn:Hx.
  - intros [= <-]. apply andb_prop in Hx as [Hu Hf]. apply String.eqb_eq in Hu.
    split; [left; reflexivity|]. auto.
  - intros Hc. destruct (IH Hc) as (Hin & Hrest). split; [right; exact Hin|exact Hrest].
Qed.

Lemma first_to_focus_None clientList :
  first_to_focus clientList = None <->
  forall c, In c clientList -> client_url c = "/" -> has_focus c = false.
Proof.
  induction clientList as [|x l IH]; cbn [first_to_focus].
  - split; [intros _ c []|reflexivity].
  - destruct (String.eqb_spec (client_url x) "/") as [Hu|Hu]; cbn [andb].
    + destruct (has_focus x) eqn:Hf.
      * split; [discriminate|]. intros Hall. specialize (Hall x (or_introl eq_refl) Hu).
        congruence.
      * rewrite IH. split.
        -- intros Hall c [<-|Hc]; [intros _; exact Hf|apply Hall, Hc].
        -- intros Hall c Hc. apply Hall. right. exact Hc.
    + rewrite IH. split.
      * intros Hall c [<-|Hc]; [intros Hu'; contradiction|apply Hall, Hc].
      * intros Hall c Hc. apply Hall. right. exact Hc.
Qed.

(** A click always closes the notification first and then does at most one
    more thing.  Only the action open does more (a click on the body or on
    Close just closes): it focuses the first window whose URL is the string
    / and that can be focused, and only when there is none opens a new
    window at /; it never does both. *)
Theorem notificationclick_effects clientList can_open action :
  exists rest,
    on_notificationclick clientList can_open action = NotificationClose :: rest /\
    (length rest <= 1)%nat /\
    (action <> "open" -> rest = []) /\
    (forall c, In (ClientFocus c) rest ->
       action = "open" /\ first_to_focus clientList = Some c /\
       In c clientList /\ client_url c = "/" /\ has_focus c = true) /\
    (forall u, In (OpenWindow u) rest ->
       action = "open" /\ u = "/" /\ can_open = true /\
       forall c, In c clientList -> client_url c = "/" -> has_focus c = false).
Proof.
  unfold on_notificationclick. eexists. split; [reflexivity|].
  destruct (String.eqb_spec action "open") as [->|Hne].
  - destruct (first_to_focus clientList) as [c|] eqn:Hfirst.
    + split; [cbn; lia|]. split; [congruence|]. split.
      * intros c' [[= <-]|[]]. split; [reflexivity|]. split; [reflexivity|].
        apply first_to_focus_Some. exact Hfirst.
      * intros u [Hu|[]]. discriminate.
    + destruct can_open.
      * split; [cbn; lia|]. split; [congruence|]. split.
        -- intros c [Hc|[]]. discriminate.
        -- intros u [[= <-]|[]]. repeat split. apply first_to_focus_None. exact Hfirst.
      * split; [cbn; lia|]. split; [reflexivity|]. split; intros ? [].
  - split; [cbn; lia|]. split; [reflexivity|]. split; intros ? [].
Qed.

(** Window clients report absolute URLs.  When no open window has the
    literal URL /, the action open never focuses one of them: it always
    opens a new window at /. *)
Theorem click_open_opens_new_window clientList :
  (forall c, In c clientList -> client_url c <> "/") ->
  on_notificationclick clientList true "open" = [NotificationClose; OpenWindow "/"].
Proof.
  intros Habs. unfold on_notificationclick. cbn [String.eqb Ascii.eqb Bool.eqb].
  assert (Hnone : first_to_focus clientList = None).
  { apply first_to_focus_None. intros c Hc Hu. exfalso. exact (Habs c Hc Hu). }
  rewrite Hnone. reflexivity.
Qed.

Lemma click_open_opens_new_window_witness :
  on_notificationclick [open_app_tab; open_app_tab] true "open" =
  [NotificationClose; OpenWindow "/"].
Proof.
  apply click_open_opens_new_window.
  intros c [<-|[<-|[]]]; cbn; discriminate.
Defined.
